(** * Image Processor Pro: the pixel pipeline of [src/core] and its shell

    A shallow embedding of [src/core/image_loader.py],
    [src/core/image_processor.py] and of the dialog handlers of
    [src/ui/main_window.py] that guard the calls into the processor.

    Buffers are numpy arrays of [uint8]; a canonical buffer has shape
    (height, width, 3) in B, G, R order.  Arrays are modelled twice, as the
    code uses them twice: as values (rows of pixels) for what an operation
    computes, and as references into a store of owned buffers for what an
    operation shares with its argument. *)

From stdpp Require Import base option list gmap.
From Stdlib Require Import ZArith Lia.

Local Open Scope Z_scope.

(** ** Pixels and buffers *)

(** One pixel of a canonical buffer: [image[y, x, 0]], [image[y, x, 1]],
    [image[y, x, 2]], that is blue, green, red. *)
Record pixel := Pixel { ch0 : Z; ch1 : Z; ch2 : Z }.

#[global] Instance pixel_eq_dec : EqDecision pixel.
Proof. solve_decision. Defined.

(** A single-channel plane, as [image[:, :, k]] yields. *)
Abbreviation plane := (list (list Z)).

(** A canonical buffer by value: [image[y]] is row [y], [image[y][x]] a pixel. *)
Abbreviation buffer := (list (list pixel)).

(** [image.shape[:2] == (h, w)] *)
Definition has_shape {A} (rows : list (list A)) (h w : nat) : Prop :=
  length rows = h ∧ Forall (λ row, length row = w) rows.

Definition has_shapeb {A} (rows : list (list A)) (h w : nat) : bool :=
  bool_decide (length rows = h) && forallb (λ row, bool_decide (length row = w)) rows.

(** The pixel in column [x] of row [y]; no pixel outside the buffer. *)
Definition pixel_at {A} (rows : list (list A)) (x y : Z) : option A :=
  if (x <? 0) || (y <? 0) then None
  else rows !! Z.to_nat y ≫= λ row, row !! Z.to_nat x.

(** ** Python slicing *)

(** How [a[start:stop]] places one bound on a sequence of length [n]: a
    negative bound counts from the end, and both ends saturate. *)
Definition slice_bound (n i : Z) : Z :=
  if i <? 0 then Z.max 0 (i + n) else Z.min i n.

(** [l[start:stop]] *)
Definition py_slice {A} (l : list A) (start stop : Z) : list A :=
  let n := Z.of_nat (length l) in
  let s := slice_bound n start in
  let e := slice_bound n stop in
  take (Z.to_nat (e - s)) (drop (Z.to_nat s) l).

(** ** ImageProcessor, by value *)

(** [image[:, :, k]] *)
Definition channel_of (k : Z) (p : pixel) : Z :=
  if k =? 0 then ch0 p else if k =? 1 then ch1 p else ch2 p.

Definition get_plane (image : buffer) (k : Z) : plane :=
  map (map (channel_of k)) image.

(** [np.zeros_like(a)] *)
Definition zeros_like (a : plane) : plane := map (map (λ _, 0)) a.

(** [cv2.merge([p0, p1, p2])] *)
Definition merge_row (r0 r1 r2 : list Z) : list pixel :=
  zip_with (λ b gr, Pixel b gr.1 gr.2) r0 (zip r1 r2).

Definition merge (p0 p1 p2 : plane) : buffer :=
  zip_with (λ r0 r12, merge_row r0 r12.1 r12.2) p0 (zip p1 p2).

Definition extract_channel (image : buffer) (channel : Z) : buffer :=
  let zeros := zeros_like (get_plane image 0) in
  if channel =? 0 then merge (get_plane image 0) zeros zeros
  else if channel =? 1 then merge zeros (get_plane image 1) zeros
  else merge zeros zeros (get_plane image 2).

(** [image[y1:y2, x1:x2]] *)
Definition crop_image (image : buffer) (x1 y1 x2 y2 : Z) : buffer :=
  map (λ row, py_slice row x1 x2) (py_slice image y1 y2).

(** ** Failures *)

(** The exceptions the code can raise, one constructor per [raise] site (the
    message each carries is quoted at the site that raises it). *)
Inductive exn :=
  | ValueError_not_loaded       (* load_image: cv2.imread returned None *)
  | Exception_camera_unavailable (* capture_from_camera: not cap.isOpened() *)
  | Exception_no_frame          (* capture_from_camera: not ret *)
  | ValueError_corner_order     (* crop dialog: x1 >= x2 or y1 >= y2 *)
  | ValueError_min_size         (* crop dialog: a span below 10 *)
  | ValueError_brightness_range (* brightness dialog: value outside 0..100 *)
  | ValueError_radius           (* circle dialog: radius <= 0 *)
  | ValueError_out_of_bounds    (* circle dialog: the disk leaves the image *)
  | cv2_error.                  (* an assertion inside OpenCV *)

#[global] Instance exn_eq_dec : EqDecision exn.
Proof. solve_decision. Defined.

(** What a call does: it returns a value or raises. *)
Inductive result (A : Type) :=
  | Ok (a : A)
  | Raise (e : exn).
Arguments Ok {A} a.
Arguments Raise {A} e.

#[global] Instance result_ret : MRet result := λ A a, Ok a.
#[global] Instance result_bind : MBind result := λ A B k r,
  match r with
  | Ok a => k a
  | Raise e => Raise e
  end.

Definition raises {A} (r : result A) : bool :=
  match r with Ok _ => false | Raise _ => true end.

(** ** uint8 arithmetic of numpy *)

(** [a + value] for a [uint8] array [a] and a Python int [value] with
    0 <= value <= 255 (the documented 0..100 is): the sum keeps dtype
    [uint8], so it is taken modulo 256.  For a Python int that does not
    fit [uint8] numpy raises [OverflowError] instead; the properties below
    that depend on the sum bound [value]. *)
Definition np_add_u8 (a : plane) (value : Z) : plane :=
  map (map (λ v, (v + value) mod 256)) a.

(** [np.clip(a, lo, hi)] *)
Definition np_clip (a : plane) (lo hi : Z) : plane :=
  map (map (λ v, Z.min (Z.max v lo) hi)) a.

(** [hsv[:, :, 2] = p] *)
Definition set_plane2 (hsv : buffer) (p : plane) : buffer :=
  zip_with (zip_with (λ px v, Pixel (ch0 px) (ch1 px) v)) hsv p.

Definition max3 (p : pixel) : Z := Z.max (ch0 p) (Z.max (ch1 p) (ch2 p)).

(** [cv2.circle] writes [color] into the pixels a rasteriser selects. *)
Definition paint (stroke : Z → Z → bool) (color : pixel) (img : buffer) : buffer :=
  imap (λ y row, imap (λ x p,
    if stroke (Z.of_nat x) (Z.of_nat y) then color else p) row) img.

Section OpenCV.

(** The OpenCV primitives that [adjust_brightness] and [draw_circle] call.
    For 8-bit B, G, R input, [COLOR_BGR2HSV] puts V = max(B, G, R) in
    channel 2; hue and saturation, the inverse conversion and the
    rasteriser of a stroked circle are OpenCV's and are left open. *)
Variable hue_of sat_of : pixel → Z.
Variable hsv2bgr : pixel → pixel.
Variable circle_stroke : Z → Z → Z → Z → Z → Z → bool.

(** [cv2.cvtColor(image, cv2.COLOR_BGR2HSV)] *)
Definition cvtColor_BGR2HSV (image : buffer) : buffer :=
  map (map (λ p, Pixel (hue_of p) (sat_of p) (max3 p))) image.

(** [cv2.cvtColor(hsv, cv2.COLOR_HSV2BGR)] *)
Definition cvtColor_HSV2BGR (hsv : buffer) : buffer :=
  map (map hsv2bgr) hsv.

(** The buffer [hsv] after the assignment to [hsv[:, :, 2]]. *)
Definition brightened_hsv (image : buffer) (value : Z) : buffer :=
  let hsv := cvtColor_BGR2HSV image in
  set_plane2 hsv (np_clip (np_add_u8 (get_plane hsv 2) value) 0 255).

Definition adjust_brightness (image : buffer) (value : Z) : buffer :=
  cvtColor_HSV2BGR (brightened_hsv image value).

(** [cv2.circle(img, (x, y), radius, color, thickness)]: OpenCV asserts
    [radius >= 0] and clips the stroke to the image. *)
Definition cv2_circle (img : buffer) (x y radius : Z) (color : pixel)
    (thickness : Z) : result buffer :=
  if radius <? 0 then Raise cv2_error
  else Ok (paint (circle_stroke x y radius thickness) color img).

Definition draw_circle (image : buffer) (x y radius : Z) : result buffer :=
  let result := image (* image.copy() *) in
  result ← cv2_circle result x y radius (Pixel 0 0 255) 2;
  mret result.

End OpenCV.

(** A rasteriser to run examples with: the ring of pixels whose distance
    to the centre is within half the thickness of the radius. *)
Definition ring_stroke (cx cy radius thickness px py : Z) : bool :=
  let d2 := (px - cx) * (px - cx) + (py - cy) * (py - cy) in
  let lo := Z.max 0 (2 * radius - thickness) in
  let hi := 2 * radius + thickness in
  (lo * lo <=? 4 * d2) && (4 * d2 <=? hi * hi).

(** ** The shell's dialog handlers *)

(** The two image slots of [MainWindow] and the messages it has shown. *)
Record window := Window {
  win_image : option buffer;
  win_processed_image : option buffer;
  win_errors : list exn
}.

(** [height, width = self.image.shape[:2]] *)
Definition height (image : buffer) : Z := Z.of_nat (length image).
Definition width (image : buffer) : Z :=
  match image with
  | [] => 0
  | row :: _ => Z.of_nat (length row)
  end.

(** The [try] body of [crop_image_dialog.accept], after the four fields
    have been read. *)
Definition crop_accept_body (image : buffer) (x1 y1 x2 y2 : Z) : result buffer :=
  if (x2 <=? x1) || (y2 <=? y1) then Raise ValueError_corner_order
  else if (x2 - x1 <? 10) || (y2 - y1 <? 10) then Raise ValueError_min_size
  else Ok (crop_image image x1 y1 x2 y2).

(** [self.display_image(self.processed_image, self.result_label)] for a
    canonical buffer: [cv2.cvtColor] refuses a buffer without pixels, and
    [display_image] catches that failure and shows it. *)
Definition display_image_errors (image : buffer) : list exn :=
  if (height image =? 0) || (width image =? 0) then [cv2_error] else [].

(** [accept] where the result has the dimensions of the current image
    (brightness, circle): a result replaces the processed image, an
    exception is shown and nothing else changes.  The window displayed the
    current image when it took it, and displaying a buffer of the same
    dimensions raises nothing. *)
Definition accept (self : window) (r : result buffer) : window :=
  match r with
  | Ok processed =>
      Window (win_image self) (Some processed) (win_errors self)
  | Raise e =>
      Window (win_image self) (win_processed_image self) (win_errors self ++ [e])
  end.

(** [accept] where the result can be any buffer (crop): the result
    replaces the processed image and is displayed, which shows an error of
    its own when the result has no pixels; an exception of the body is
    shown and nothing else changes. *)
Definition accept_and_display (self : window) (r : result buffer) : window :=
  match r with
  | Ok processed =>
      Window (win_image self) (Some processed)
             (win_errors self ++ display_image_errors processed)
  | Raise e =>
      Window (win_image self) (win_processed_image self) (win_errors self ++ [e])
  end.

Definition crop_image_dialog (self : window) (x1 y1 x2 y2 : Z) : window :=
  match win_image self with
  | None => self
  | Some image => accept_and_display self (crop_accept_body image x1 y1 x2 y2)
  end.

Section Shell.

Variable hue_of sat_of : pixel → Z.
Variable hsv2bgr : pixel → pixel.
Variable circle_stroke : Z → Z → Z → Z → Z → Z → bool.

(** The [try] body of [adjust_brightness_dialog.accept]. *)
Definition brightness_accept_body (image : buffer) (value : Z) : result buffer :=
  if (value <? 0) || (100 <? value) then Raise ValueError_brightness_range
  else Ok (adjust_brightness hue_of sat_of hsv2bgr image value).

Definition adjust_brightness_dialog (self : window) (value : Z) : window :=
  match win_image self with
  | None => self
  | Some image => accept self (brightness_accept_body image value)
  end.

(** The [try] body of [draw_circle_dialog.accept]. *)
Definition circle_accept_body (image : buffer) (x y radius : Z) : result buffer :=
  let height := height image in
  let width := width image in
  if radius <=? 0 then Raise ValueError_radius
  else if (x - radius <? 0) || (width <=? x + radius)
          || (y - radius <? 0) || (height <=? y + radius)
  then Raise ValueError_out_of_bounds
  else draw_circle circle_stroke image x y radius.

Definition draw_circle_dialog (self : window) (x y radius : Z) : window :=
  match win_image self with
  | None => self
  | Some image => accept self (circle_accept_body image x y radius)
  end.

End Shell.

(** ** ImageLoader *)

(** What [cv2.imread(path, cv2.IMREAD_UNCHANGED)] decodes to: an array of
    shape (h, w), or of shape (h, w, c) with [c] values per pixel. *)
Inductive ndarray :=
  | Arr2 (rows : list (list Z))
  | Arr3 (c : nat) (rows : list (list (list Z))).

#[global] Instance ndarray_eq_dec : EqDecision ndarray.
Proof. solve_decision. Defined.

(** [len(image.shape)] *)
Definition ndim (image : ndarray) : nat :=
  match image with
  | Arr2 _ => 2
  | Arr3 _ _ => 3
  end.

(** The number of values per pixel, 1 for a 2-dimensional array. *)
Definition channels (image : ndarray) : nat :=
  match image with
  | Arr2 _ => 1
  | Arr3 c _ => c
  end.

(** [cv2.cvtColor(image, cv2.COLOR_GRAY2BGR)] *)
Definition cvtColor_GRAY2BGR (rows : list (list Z)) : ndarray :=
  Arr3 3 (map (map (λ v, [v; v; v])) rows).

(** [cv2.cvtColor(image, cv2.COLOR_BGRA2BGR)] *)
Definition cvtColor_BGRA2BGR (rows : list (list (list Z))) : ndarray :=
  Arr3 3 (map (map (take 3)) rows).

(** The conversion of [load_image], lines 35 to 41. *)
Definition normalize (image : ndarray) : ndarray :=
  match image with
  | Arr2 rows => cvtColor_GRAY2BGR rows          (* len(image.shape) == 2 *)
  | Arr3 c rows =>
      if bool_decide (c = 4%nat) then cvtColor_BGRA2BGR rows  (* image.shape[2] == 4 *)
      else image
  end.

(** The [try] body of [load_image], given what [cv2.imread] returned. *)
Definition load_image_body (imread : option ndarray) : result ndarray :=
  match imread with
  | None => Raise ValueError_not_loaded
  | Some image => Ok (normalize image)
  end.

(** [load_image]: an exception is reported and [None] is returned. *)
Definition load_image (imread : option ndarray) : option ndarray * list exn :=
  match load_image_body imread with
  | Ok image => (Some image, [])
  | Raise e => (None, [e])
  end.

(** ** The camera *)

(** The calls the loader makes on the capture collaborator. *)
Inductive cam_event :=
  | EvVideoCapture (index : Z)
  | EvIsOpened
  | EvRead
  | EvRelease
  | EvCritical (e : exn).

#[global] Instance cam_event_eq_dec : EqDecision cam_event.
Proof. solve_decision. Defined.

(** The device: whether opening it will succeed, the frame its next read
    will deliver if any, whether this process holds it, and what has been
    called on it so far. *)
Record camera := Camera {
  will_open : bool;
  next_frame : option ndarray;
  held : bool;
  calls : list cam_event
}.

(** Code that drives the camera: state passing with exceptions. *)
Definition cam (A : Type) : Type := camera → camera * result A.

#[global] Instance cam_ret : MRet cam := λ A a dev, (dev, Ok a).
#[global] Instance cam_bind : MBind cam := λ A B k m dev,
  match m dev with
  | (dev', Ok a) => k a dev'
  | (dev', Raise e) => (dev', Raise e)
  end.

Definition cam_raise {A} (e : exn) : cam A := λ dev, (dev, Raise e).

(** [try: body except Exception as e: handler(e)] *)
Definition cam_try {A} (body : cam A) (handler : exn → cam A) : cam A :=
  λ dev,
    match body dev with
    | (dev', Ok a) => (dev', Ok a)
    | (dev', Raise e) => handler e dev'
    end.

Definition log (ev : cam_event) (dev : camera) : list cam_event :=
  calls dev ++ [ev].

(** [cv2.VideoCapture(index)] *)
Definition VideoCapture (index : Z) : cam unit := λ dev,
  (Camera (will_open dev) (next_frame dev) (held dev || will_open dev)
          (log (EvVideoCapture index) dev), Ok ()).

(** [cap.isOpened()] *)
Definition isOpened : cam bool := λ dev,
  (Camera (will_open dev) (next_frame dev) (held dev) (log EvIsOpened dev),
   Ok (held dev)).

(** [cap.read()]: the pair [(ret, frame)]. *)
Definition read : cam (bool * option ndarray) := λ dev,
  (Camera (will_open dev) (next_frame dev) (held dev) (log EvRead dev),
   Ok (if held dev then
         match next_frame dev with
         | Some frame => (true, Some frame)
         | None => (false, None)
         end
       else (false, None))).

(** [cap.release()] *)
Definition release : cam unit := λ dev,
  (Camera (will_open dev) (next_frame dev) false (log EvRelease dev), Ok ()).

(** [QMessageBox.critical(None, "Ошибка", error_msg)] *)
Definition critical (e : exn) : cam unit := λ dev,
  (Camera (will_open dev) (next_frame dev) (held dev) (log (EvCritical e) dev),
   Ok ()).

Definition capture_from_camera : cam (option ndarray) :=
  cam_try
    (_ ← VideoCapture 0;
     opened ← isOpened;
     _ ← (if negb opened then cam_raise Exception_camera_unavailable
          else mret ());
     '(ret, frame) ← read;
     _ ← release;
     _ ← (if negb ret then cam_raise Exception_no_frame else mret ());
     mret frame)
    (λ e, _ ← critical e; mret None).

(** How often [ev] was called. *)
Definition count_calls (ev : cam_event) (dev : camera) : nat :=
  length (filter (λ e, e = ev) (calls dev)).

(** ** Arrays by reference *)

(** numpy arrays are objects: an array either owns its storage or is a view
    of another array's.  The store maps each owned storage to its content;
    an array is a window into one of them. *)
Record array := Array {
  base : positive;     (* the storage the array reads and writes *)
  row0 : nat;          (* the window: first row, first column, *)
  col0 : nat;
  nrows : nat;         (* and extent *)
  ncols : nat
}.

#[global] Instance array_eq_dec : EqDecision array.
Proof. solve_decision. Defined.

(** The rows [row0 .. row0 + nrows) and columns [col0 .. col0 + ncols). *)
Definition view_of (buf : buffer) (a : array) : buffer :=
  map (λ row, take (ncols a) (drop (col0 a) row))
      (take (nrows a) (drop (row0 a) buf)).

(** The content an array shows. *)
Definition deref (σ : gmap positive buffer) (a : array) : buffer :=
  match σ !! base a with
  | Some buf => view_of buf a
  | None => []
  end.

(** The window lies inside the storage. *)
Definition array_ok (σ : gmap positive buffer) (a : array) : Prop :=
  ∃ buf h w, σ !! base a = Some buf ∧ has_shape buf h w ∧
    (row0 a + nrows a ≤ h)%nat ∧ (col0 a + ncols a ≤ w)%nat.

(** A new array that owns fresh storage holding [content]. *)
Definition alloc (σ : gmap positive buffer) (content : buffer)
    : gmap positive buffer * array :=
  let l := fresh (dom σ) in
  (<[l := content]> σ,
   Array l 0 0 (length content) (Z.to_nat (width content))).

(** [a[i, j] = p] for [i], [j] inside the array. *)
Definition setitem (σ : gmap positive buffer) (a : array) (i j : nat) (p : pixel)
    : gmap positive buffer :=
  if bool_decide (i < nrows a)%nat && bool_decide (j < ncols a)%nat then
    alter (alter (λ row, <[(col0 a + j)%nat := p]> row) (row0 a + i)%nat) (base a) σ
  else σ.

(** [image[y1:y2, x1:x2]]: basic slicing yields a view. *)
Definition slice_view (a : array) (x1 y1 x2 y2 : Z) : array :=
  let sy := slice_bound (Z.of_nat (nrows a)) y1 in
  let ey := slice_bound (Z.of_nat (nrows a)) y2 in
  let sx := slice_bound (Z.of_nat (ncols a)) x1 in
  let ex := slice_bound (Z.of_nat (ncols a)) x2 in
  Array (base a) (row0 a + Z.to_nat sy) (col0 a + Z.to_nat sx)
        (Z.to_nat (ey - sy)) (Z.to_nat (ex - sx)).

Module ByRef.

(** [cv2.merge] allocates its result. *)
Definition extract_channel (σ : gmap positive buffer) (image : array) (channel : Z)
    : gmap positive buffer * array :=
  alloc σ (extract_channel (deref σ image) channel).

Definition crop_image (σ : gmap positive buffer) (image : array) (x1 y1 x2 y2 : Z)
    : gmap positive buffer * array :=
  (σ, slice_view image x1 y1 x2 y2).

Section OpenCV.

Variable hue_of sat_of : pixel → Z.
Variable hsv2bgr : pixel → pixel.
Variable circle_stroke : Z → Z → Z → Z → Z → Z → bool.

(** [cv2.cvtColor] allocates its result; the assignment to
    [hsv[:, :, 2]] writes into [hsv]'s own storage. *)
Definition adjust_brightness (σ : gmap positive buffer) (image : array) (value : Z)
    : gmap positive buffer * array :=
  let '(σ1, hsv) := alloc σ (cvtColor_BGR2HSV hue_of sat_of (deref σ image)) in
  let σ2 :=
    alter (λ buf,
      set_plane2 buf (np_clip (np_add_u8 (get_plane buf 2) value) 0 255))
      (base hsv) σ1 in
  alloc σ2 (cvtColor_HSV2BGR hsv2bgr (deref σ2 hsv)).

(** [image.copy()] allocates; [cv2.circle] draws into the copy. *)
Definition draw_circle (σ : gmap positive buffer) (image : array) (x y radius : Z)
    : gmap positive buffer * result array :=
  let '(σ1, result) := alloc σ (deref σ image) in
  if radius <? 0 then (σ1, Raise cv2_error)
  else
    (alter (paint (circle_stroke x y radius 2) (Pixel 0 0 255)) (base result) σ1,
     Ok result).

End OpenCV.

End ByRef.

(** The rest of the program cannot tell through [image] that [out] exists:
    the call left [image]'s content as it was, [out] has storage of its
    own, and no write through [out] shows in [image]. *)
Definition independent_of (σ σ' : gmap positive buffer) (image out : array) : Prop :=
  deref σ' image = deref σ image
  ∧ base out ≠ base image
  ∧ ∀ (i j : nat) (p : pixel), deref (setitem σ' out i j p) image = deref σ image.

(** The buffer of shape (h, w) whose pixel (x, y) is (x, y, x + y). *)
Definition gradient (h w : nat) : buffer :=
  map (λ y, map (λ x, Pixel (Z.of_nat x) (Z.of_nat y) (Z.of_nat (x + y))) (seq 0 w))
      (seq 0 h).

(** The pixel [extract_channel] computes from a source pixel. *)
Definition isolate (channel : Z) (p : pixel) : pixel :=
  if channel =? 0 then Pixel (ch0 p) 0 0
  else if channel =? 1 then Pixel 0 (ch1 p) 0
  else Pixel 0 0 (ch2 p).

(** The value [np.clip((v + value) mod 256, 0, 255)] stored for value [v]. *)
Definition stored_value (v value : Z) : Z :=
  Z.min (Z.max ((v + value) mod 256) 0) 255.

(** ** The rest of the shell *)

(** The classes that [main_window.py] declares again for its own use. *)
Module Inline.

(** [ImageLoader.load_image], given what [cv2.imread(file_path)] returned:
    the default flag decodes to three channels, B, G, R.  The [except]
    clause raises the failure again under the text of the first. *)
Definition load_image (imread : option buffer) : result buffer :=
  match imread with
  | None => Raise ValueError_not_loaded
  | Some image => Ok image
  end.

(** [ImageLoader.capture_from_camera]: no [try], the exceptions leave the
    function. *)
Definition capture_from_camera : cam (option ndarray) :=
  _ ← VideoCapture 0;
  opened ← isOpened;
  _ ← (if negb opened then cam_raise Exception_camera_unavailable
       else mret ());
  '(ret, frame) ← read;
  _ ← release;
  _ ← (if negb ret then cam_raise Exception_no_frame else mret ());
  mret frame.

End Inline.

(** What [display_image] can raise. *)
Inductive display_exn :=
  | ValueError_no_image             (* image is None *)
  | ValueError_channels (c : nat)   (* a third dimension other than 3 or 4 *)
  | cv2_error_no_pixels.            (* cv2.cvtColor on an array without pixels *)

#[global] Instance display_exn_eq_dec : EqDecision display_exn.
Proof. solve_decision. Defined.

(** [cv2.COLOR_BGR2RGB] and [cv2.COLOR_BGRA2RGB] on one pixel: red and blue
    change places, a fourth value is dropped. *)
Definition rgb_of (p : list Z) : list Z :=
  match p with
  | b :: g :: r :: _ => [r; g; b]
  | _ => p
  end.

(** [rgb_image.shape] and the bytes of [rgb_image.data], row after row. *)
Definition rows_of (image : ndarray) : nat :=
  match image with
  | Arr2 rows => length rows
  | Arr3 _ rows => length rows
  end.

Definition cols_of (image : ndarray) : nat :=
  match image with
  | Arr2 rows => match rows with [] => 0 | row :: _ => length row end
  | Arr3 _ rows => match rows with [] => 0 | row :: _ => length row end
  end.

Definition data_of (image : ndarray) : list Z :=
  match image with
  | Arr2 rows => concat rows
  | Arr3 _ rows => concat (map (λ row, concat row) rows)
  end.

(** A decoded array is rectangular: every row has [w] pixels, and every
    pixel of an array with a third dimension has [c] values. *)
Definition ndarray_ok (image : ndarray) (h w : nat) : Prop :=
  match image with
  | Arr2 rows => has_shape rows h w
  | Arr3 c rows =>
      has_shape rows h w ∧ Forall (Forall (λ p, length p = c)) rows
  end.

Module MainWindow.

(** [load_image]: the file dialog gives a name, empty when it was
    dismissed; [imread] is what decoding the named file yields. *)
Definition load_image (self : window) (file_name : list Z)
    (imread : list Z → option buffer) : window :=
  match file_name with
  | [] => self
  | _ =>
      match Inline.load_image (imread file_name) with
      | Ok image =>
          Window (Some image) (win_processed_image self) (win_errors self)
      | Raise e =>
          Window (win_image self) (win_processed_image self)
                 (win_errors self ++ [e])
      end
  end.

(** [show_channel], with the index the combo box holds. *)
Definition show_channel (self : window) (channel : Z) : window :=
  match win_image self with
  | None => self
  | Some image =>
      Window (win_image self) (Some (extract_channel image channel))
             (win_errors self)
  end.

(** The conversion that opens [display_image], as it goes for an array
    that has pixels: which branch is taken and what it computes. *)
Definition display_image_rgb (image : option ndarray) : display_exn + ndarray :=
  match image with
  | None => inl ValueError_no_image
  | Some (Arr3 c rows) =>
      if bool_decide (c = 3%nat) then inr (Arr3 3 (map (map rgb_of) rows))
      else if bool_decide (c = 4%nat) then inr (Arr3 3 (map (map rgb_of) rows))
      else inl (ValueError_channels c)
  | Some (Arr2 rows) => inr (Arr3 3 (map (map (λ v, [v; v; v])) rows))
  end.

(** The conversion that opens [display_image], for every array: each
    converting branch calls [cv2.cvtColor], which refuses an array without
    pixels; the branch that raises for the channel count calls nothing. *)
Definition display_image (image : option ndarray) : display_exn + ndarray :=
  match display_image_rgb image with
  | inl e => inl e
  | inr rgb =>
      if bool_decide (rows_of rgb = 0%nat) || bool_decide (cols_of rgb = 0%nat)
      then inl cv2_error_no_pixels
      else inr rgb
  end.

(** [h, w, ch = rgb_image.shape; bytes_per_line = ch * w] *)
Definition bytes_per_line (rgb_image : ndarray) : nat :=
  channels rgb_image * cols_of rgb_image.

(** The defaults the circle dialog opens with: [width // 2],
    [height // 2] and [min(width, height) // 8]. *)
Definition default_circle (image : buffer) : Z * Z * Z :=
  (width image `div` 2, height image `div` 2,
   Z.min (width image) (height image) `div` 8).

End MainWindow.

(** A canonical buffer as the array of shape (h, w, 3) it is. *)
Definition ndarray_of (image : buffer) : ndarray :=
  Arr3 3 (map (map (λ p, [ch0 p; ch1 p; ch2 p])) image).

(** [n] calls of [capture_from_camera], one after the other. *)
Fixpoint capture_repeatedly (n : nat) (dev : camera) : camera :=
  match n with
  | O => dev
  | S n => capture_repeatedly n (capture_from_camera dev).1
  end.

(** What every handler of an operation keeps: the current image; the whole
    window when there is no current image; and the errors shown before, to
    which it adds one at most. *)
Definition keeps_image (self self' : window) : Prop :=
  win_image self' = win_image self
  ∧ (win_image self = None → self' = self)
  ∧ (win_errors self' = win_errors self
     ∨ ∃ e, win_errors self' = win_errors self ++ [e]).

(** * Properties *)

(** ** Slicing inside the bounds *)

Lemma slice_bound_inside (n i : Z) : 0 <= i <= n → slice_bound n i = i.
Proof. unfold slice_bound. intros H. destruct (Z.ltb_spec i 0); lia. Qed.

Lemma py_slice_inside {A} (l : list A) (start stop : Z) :
  0 <= start <= stop → stop <= Z.of_nat (length l) →
  py_slice l start stop = take (Z.to_nat (stop - start)) (drop (Z.to_nat start) l).
Proof.
  intros H1 H2. unfold py_slice.
  rewrite !slice_bound_inside by lia. reflexivity.
Qed.

Lemma py_slice_length {A} (l : list A) (start stop : Z) :
  0 <= start <= stop → stop <= Z.of_nat (length l) →
  length (py_slice l start stop) = Z.to_nat (stop - start).
Proof.
  intros H1 H2. rewrite py_slice_inside by lia.
  rewrite length_take, length_drop. lia.
Qed.

Lemma py_slice_lookup {A} (l : list A) (start stop : Z) (k : nat) :
  0 <= start <= stop → stop <= Z.of_nat (length l) →
  (k < Z.to_nat (stop - start))%nat →
  py_slice l start stop !! k = l !! (Z.to_nat start + k)%nat.
Proof.
  intros H1 H2 Hk. rewrite py_slice_inside by lia.
  rewrite lookup_take_lt by lia. apply lookup_drop.
Qed.

Lemma has_shape_row {A} (rows : list (list A)) (h w : nat) (y : nat) (row : list A) :
  has_shape rows h w → rows !! y = Some row → length row = w.
Proof.
  intros [_ Hw] Hy. rewrite Forall_forall in Hw.
  apply Hw. eapply list_elem_of_lookup_2. exact Hy.
Qed.

Lemma has_shapeb_spec {A} (rows : list (list A)) (h w : nat) :
  has_shapeb rows h w = true ↔ has_shape rows h w.
Proof.
  unfold has_shapeb, has_shape.
  rewrite andb_true_iff, bool_decide_eq_true, forallb_forall, Forall_forall.
  split; intros [H1 H2]; split; try done; intros row Hrow.
  - apply list_elem_of_In in Hrow. apply H2 in Hrow.
    by apply bool_decide_eq_true in Hrow.
  - apply bool_decide_eq_true. apply H2. by apply list_elem_of_In.
Qed.

Lemma pixel_at_inside {A} (rows : list (list A)) (x y : Z) :
  0 <= x → 0 <= y →
  pixel_at rows x y = rows !! Z.to_nat y ≫= λ row, row !! Z.to_nat x.
Proof.
  intros Hx Hy. unfold pixel_at.
  destruct (Z.ltb_spec x 0), (Z.ltb_spec y 0); simpl; try lia. reflexivity.
Qed.

(** ** C6: what [crop_image] returns on a valid region *)

Lemma crop_image_shape (image : buffer) (h w : nat) (x1 y1 x2 y2 : Z) :
  has_shape image h w →
  0 <= x1 <= x2 → x2 <= Z.of_nat w → 0 <= y1 <= y2 → y2 <= Z.of_nat h →
  has_shape (crop_image image x1 y1 x2 y2)
            (Z.to_nat (y2 - y1)) (Z.to_nat (x2 - x1)).
Proof.
  intros Hs Hx1 Hx2 Hy1 Hy2. pose proof Hs as [Hh Hw]. unfold crop_image. split.
  - rewrite length_map, py_slice_length by lia. reflexivity.
  - rewrite Forall_map. rewrite py_slice_inside by lia.
    apply Forall_take, Forall_drop.
    eapply Forall_impl; [exact Hw|]. simpl. intros row Hrow.
    rewrite py_slice_length by lia. reflexivity.
Qed.

Lemma crop_image_pixel (image : buffer) (h w : nat) (x1 y1 x2 y2 i j : Z) :
  has_shape image h w →
  0 <= x1 <= x2 → x2 <= Z.of_nat w → 0 <= y1 <= y2 → y2 <= Z.of_nat h →
  0 <= i < x2 - x1 → 0 <= j < y2 - y1 →
  pixel_at (crop_image image x1 y1 x2 y2) i j = pixel_at image (x1 + i) (y1 + j)
  ∧ is_Some (pixel_at image (x1 + i) (y1 + j)).
Proof.
  intros Hs Hx1 Hx2 Hy1 Hy2 Hi Hj. pose proof Hs as [Hh Hw].
  rewrite !pixel_at_inside by lia. unfold crop_image.
  rewrite list_lookup_fmap, py_slice_lookup by lia.
  replace (Z.to_nat y1 + Z.to_nat j)%nat with (Z.to_nat (y1 + j)) by lia.
  destruct (lookup_lt_is_Some_2 image (Z.to_nat (y1 + j))) as [row Hrow]; [lia|].
  rewrite Hrow. simpl.
  pose proof (has_shape_row _ _ _ _ _ Hs Hrow) as Hlen.
  rewrite py_slice_lookup by lia.
  replace (Z.to_nat x1 + Z.to_nat i)%nat with (Z.to_nat (x1 + i)) by lia.
  split; [reflexivity|]. apply lookup_lt_is_Some_2. lia.
Qed.

(** C6. On a buffer of shape (h, w) and a region with
    0 <= x1 < x2 <= w, 0 <= y1 < y2 <= h and both spans at least 10,
    [crop_image] returns a buffer of shape (y2 - y1, x2 - x1) whose pixel
    (i, j) is the source's pixel (x1 + i, y1 + j). *)
Theorem crop_image_sub_rectangle (image : buffer) (h w : nat) (x1 y1 x2 y2 : Z) :
  has_shape image h w →
  0 <= x1 < x2 → x2 <= Z.of_nat w →
  0 <= y1 < y2 → y2 <= Z.of_nat h →
  10 <= x2 - x1 → 10 <= y2 - y1 →
  has_shape (crop_image image x1 y1 x2 y2)
            (Z.to_nat (y2 - y1)) (Z.to_nat (x2 - x1))
  ∧ ∀ i j : Z, 0 <= i < x2 - x1 → 0 <= j < y2 - y1 →
      is_Some (pixel_at (crop_image image x1 y1 x2 y2) i j)
      ∧ pixel_at (crop_image image x1 y1 x2 y2) i j
        = pixel_at image (x1 + i) (y1 + j).
Proof.
  intros Hs Hx1 Hx2 Hy1 Hy2 _ _. split.
  - apply (crop_image_shape image h w); [done|lia..].
  - intros i j Hi Hj.
    destruct (crop_image_pixel image h w x1 y1 x2 y2 i j) as [Heq Hsome];
      [done|lia..|].
    rewrite Heq. done.
Qed.

Lemma crop_image_sub_rectangle_witness :
  has_shape (crop_image (gradient 20 20) 5 5 15 15) 10 10
  ∧ ∀ i j : Z, 0 <= i < 10 → 0 <= j < 10 →
      is_Some (pixel_at (crop_image (gradient 20 20) 5 5 15 15) i j)
      ∧ pixel_at (crop_image (gradient 20 20) 5 5 15 15) i j
        = pixel_at (gradient 20 20) (5 + i) (5 + j).
Proof.
  apply (crop_image_sub_rectangle (gradient 20 20) 20 20 5 5 15 15);
    [by apply has_shapeb_spec; vm_compute | lia..].
Defined.

(** ** C7, C10: what [extract_channel] returns *)

Lemma merge_row_map (f g k : pixel → Z) (row : list pixel) :
  merge_row (map f row) (map g row) (map k row)
  = map (λ p, Pixel (f p) (g p) (k p)) row.
Proof.
  unfold merge_row. induction row as [|p row IH]; simpl; [done|].
  f_equal. exact IH.
Qed.

Lemma merge_map (f g k : pixel → Z) (image : buffer) :
  merge (map (map f) image) (map (map g) image) (map (map k) image)
  = map (map (λ p, Pixel (f p) (g p) (k p))) image.
Proof.
  unfold merge. induction image as [|row image IH]; simpl; [done|].
  rewrite merge_row_map. f_equal. exact IH.
Qed.

Lemma zeros_like_plane (image : buffer) (k : Z) :
  zeros_like (get_plane image k) = map (map (λ _ : pixel, 0)) image.
Proof.
  unfold zeros_like, get_plane. rewrite map_map.
  apply map_ext. intros row. by rewrite map_map.
Qed.

Lemma extract_channel_map (image : buffer) (channel : Z) :
  extract_channel image channel = map (map (isolate channel)) image.
Proof.
  unfold extract_channel, isolate. rewrite zeros_like_plane. unfold get_plane.
  destruct (channel =? 0); [|destruct (channel =? 1)]; apply merge_map.
Qed.

Lemma map_map_shape {A B} (f : A → B) (rows : list (list A)) (h w : nat) :
  has_shape rows h w → has_shape (map (map f) rows) h w.
Proof.
  intros [Hh Hw]. split; [by rewrite length_map|].
  rewrite Forall_map. eapply Forall_impl; [exact Hw|].
  simpl. intros row Hrow. by rewrite length_map.
Qed.

Lemma pixel_at_map_map {A B} (f : A → B) (rows : list (list A)) (x y : Z) :
  pixel_at (map (map f) rows) x y = f <$> pixel_at rows x y.
Proof.
  unfold pixel_at. destruct ((x <? 0) || (y <? 0)); [done|].
  rewrite list_lookup_fmap. destruct (rows !! Z.to_nat y) as [row|]; [|done].
  simpl. apply list_lookup_fmap.
Qed.

(** C7. For a channel index in {0, 1, 2}, [extract_channel] returns a buffer
    of the same dimensions, with a pixel exactly where the source has one,
    where that channel keeps the source's value and the other two channels
    are 0. *)
Theorem extract_channel_isolates (image : buffer) (channel : Z) :
  0 <= channel <= 2 →
  (∀ h w, has_shape image h w → has_shape (extract_channel image channel) h w)
  ∧ ∀ x y : Z,
      (is_Some (pixel_at (extract_channel image channel) x y)
       ↔ is_Some (pixel_at image x y))
      ∧ ∀ p q, pixel_at image x y = Some p →
          pixel_at (extract_channel image channel) x y = Some q →
          channel_of channel q = channel_of channel p
          ∧ ∀ k, 0 <= k <= 2 → k ≠ channel → channel_of k q = 0.
Proof.
  intros Hc. rewrite extract_channel_map. split.
  - intros h w. apply map_map_shape.
  - intros x y. rewrite pixel_at_map_map. split.
    + apply fmap_is_Some.
    + intros p q -> [= <-]. unfold isolate, channel_of. split.
      * destruct (Z.eqb_spec channel 0); [done|].
        destruct (Z.eqb_spec channel 1); done.
      * intros k Hk Hne.
        destruct (Z.eqb_spec channel 0), (Z.eqb_spec channel 1),
          (Z.eqb_spec k 0), (Z.eqb_spec k 1); simpl; lia || done.
Qed.

Lemma extract_channel_isolates_witness :
  (∀ h w, has_shape (gradient 4 4) h w →
     has_shape (extract_channel (gradient 4 4) 1) h w)
  ∧ ∀ x y : Z,
      (is_Some (pixel_at (extract_channel (gradient 4 4) 1) x y)
       ↔ is_Some (pixel_at (gradient 4 4) x y))
      ∧ ∀ p q, pixel_at (gradient 4 4) x y = Some p →
          pixel_at (extract_channel (gradient 4 4) 1) x y = Some q →
          channel_of 1 q = channel_of 1 p
          ∧ ∀ k, 0 <= k <= 2 → k ≠ 1 → channel_of k q = 0.
Proof. apply (extract_channel_isolates (gradient 4 4) 1). lia. Defined.

(** C10. A channel index other than 0 and 1, inside or outside {0, 1, 2},
    takes the last branch: [extract_channel] returns what it returns for
    index 2, channel 2 kept and channels 0 and 1 zero at every pixel. *)
Theorem extract_channel_falls_through (image : buffer) (channel : Z) :
  channel ≠ 0 → channel ≠ 1 →
  extract_channel image channel = extract_channel image 2
  ∧ (∀ h w, has_shape image h w → has_shape (extract_channel image channel) h w)
  ∧ ∀ x y : Z,
      pixel_at (extract_channel image channel) x y
      = (λ p, Pixel 0 0 (ch2 p)) <$> pixel_at image x y.
Proof.
  intros H0 H1. rewrite !extract_channel_map.
  assert (isolate channel = λ p, Pixel 0 0 (ch2 p)) as ->.
  { unfold isolate. destruct (Z.eqb_spec channel 0); [lia|].
    destruct (Z.eqb_spec channel 1); [lia|]. reflexivity. }
  split; [reflexivity|]. split.
  - intros h w. apply map_map_shape.
  - intros x y. apply pixel_at_map_map.
Qed.

Lemma extract_channel_falls_through_witness :
  extract_channel (gradient 4 4) (-1) = extract_channel (gradient 4 4) 2
  ∧ (∀ h w, has_shape (gradient 4 4) h w →
       has_shape (extract_channel (gradient 4 4) (-1)) h w)
  ∧ ∀ x y : Z,
      pixel_at (extract_channel (gradient 4 4) (-1)) x y
      = (λ p, Pixel 0 0 (ch2 p)) <$> pixel_at (gradient 4 4) x y.
Proof. apply (extract_channel_falls_through (gradient 4 4) (-1)); lia. Defined.

(** ** C1: the value channel in [adjust_brightness] *)

Lemma zip_with_map_map {A B C D} (f : B → C → D) (a : A → B) (b : A → C)
    (rows : list (list A)) :
  zip_with (zip_with f) (map (map a) rows) (map (map b) rows)
  = map (map (λ p, f (a p) (b p))) rows.
Proof.
  induction rows as [|row rows IH]; simpl; [done|]. f_equal; [|exact IH].
  induction row as [|p row IHrow]; simpl; [done|]. f_equal. exact IHrow.
Qed.

Lemma map_map_compose {A B C} (f : A → B) (g : B → C) (rows : list (list A)) :
  map (map g) (map (map f) rows) = map (map (λ p, g (f p))) rows.
Proof.
  rewrite map_map. apply map_ext. intros row. by rewrite map_map.
Qed.

Lemma stored_value_wraps (v value : Z) : stored_value v value = (v + value) mod 256.
Proof.
  unfold stored_value. pose proof (Z.mod_pos_bound (v + value) 256). lia.
Qed.

Section Brightness.

Variable hue_of sat_of : pixel → Z.
Variable hsv2bgr : pixel → pixel.

Lemma brightened_hsv_map (image : buffer) (value : Z) :
  brightened_hsv hue_of sat_of image value
  = map (map (λ p, Pixel (hue_of p) (sat_of p) (stored_value (max3 p) value)))
        image.
Proof.
  unfold brightened_hsv, cvtColor_BGR2HSV, set_plane2, np_clip, np_add_u8,
    get_plane.
  rewrite !map_map_compose.
  rewrite (zip_with_map_map (λ px v, Pixel (ch0 px) (ch1 px) v)).
  reflexivity.
Qed.

(** The clip after the [uint8] sum changes nothing: a pixel of value [v]
    gets the value [(v + value) mod 256]. *)
Lemma brightened_hsv_pixel (image : buffer) (value x y : Z) :
  pixel_at (brightened_hsv hue_of sat_of image value) x y
  = (λ p, Pixel (hue_of p) (sat_of p) ((max3 p + value) mod 256))
      <$> pixel_at image x y.
Proof.
  rewrite brightened_hsv_map, pixel_at_map_map.
  destruct (pixel_at image x y) as [p|]; [|done]. simpl.
  by rewrite stored_value_wraps.
Qed.

Lemma adjust_brightness_pixel (image : buffer) (value x y : Z) :
  pixel_at (adjust_brightness hue_of sat_of hsv2bgr image value) x y
  = (λ p, hsv2bgr (Pixel (hue_of p) (sat_of p) ((max3 p + value) mod 256)))
      <$> pixel_at image x y.
Proof.
  unfold adjust_brightness, cvtColor_HSV2BGR.
  rewrite pixel_at_map_map, brightened_hsv_pixel.
  by destruct (pixel_at image x y).
Qed.

End Brightness.

(** C1. On the one-pixel white buffer, whose value channel is 255,
    [adjust_brightness(buf, 100)] stores the value 99 = (255 + 100) mod 256
    in the hue-saturation-value buffer, whatever hue and saturation OpenCV
    computes, and converts that pixel back: the sum wraps before
    [np.clip] sees it. *)
Theorem adjust_brightness_wraps_at_255 (hue_of sat_of : pixel → Z)
    (hsv2bgr : pixel → pixel) :
  let white := Pixel 255 255 255 in
  max3 white = 255
  ∧ brightened_hsv hue_of sat_of [[white]] 100
    = [[Pixel (hue_of white) (sat_of white) 99]]
  ∧ adjust_brightness hue_of sat_of hsv2bgr [[white]] 100
    = [[hsv2bgr (Pixel (hue_of white) (sat_of white) 99)]].
Proof. repeat split. Qed.

(** Every pixel of value 255 ends at value 99 under delta 100. *)
Lemma brightened_hsv_saturated (hue_of sat_of : pixel → Z) (image : buffer)
    (x y : Z) (p : pixel) :
  pixel_at image x y = Some p → max3 p = 255 →
  ch2 <$> pixel_at (brightened_hsv hue_of sat_of image 100) x y = Some 99.
Proof.
  intros Hp Hmax. rewrite brightened_hsv_pixel, Hp. simpl. by rewrite Hmax.
Qed.

(** Below the wrap the code does add: the value grows by [value] while the
    sum stays within 255. *)
Lemma brightened_hsv_below_wrap (hue_of sat_of : pixel → Z) (image : buffer)
    (value x y : Z) (p : pixel) :
  pixel_at image x y = Some p → 0 <= max3 p + value <= 255 →
  ch2 <$> pixel_at (brightened_hsv hue_of sat_of image value) x y
  = Some (max3 p + value).
Proof.
  intros Hp Hsum. rewrite brightened_hsv_pixel, Hp. simpl.
  by rewrite Z.mod_small by lia.
Qed.

(** ** C2: where the crop region is validated *)


Lemma crop_accept_body_raises (image : buffer) (x1 y1 x2 y2 : Z) :
  raises (crop_accept_body image x1 y1 x2 y2)
  = (x2 <=? x1) || (y2 <=? y1) || (x2 - x1 <? 10) || (y2 - y1 <? 10).
Proof.
  unfold crop_accept_body.
  by destruct (x2 <=? x1), (y2 <=? y1), (x2 - x1 <? 10), (y2 - y1 <? 10).
Qed.




(** The region (25, 5, 40, 15) of a 20 x 20 image passes both checks of
    the handler: the processed image becomes ten rows without pixels, and
    displaying it shows an error. *)
Lemma crop_dialog_beyond_the_image :
  let self' :=
    crop_image_dialog (Window (Some (gradient 20 20)) None []) 25 5 40 15 in
  win_processed_image self' = Some (replicate 10 [])
  ∧ win_errors self' = [cv2_error].
Proof. split; reflexivity. Qed.

(** ** C5: where the circle is validated *)

(** C5, refuted as stated: with centre (0, 7) and radius 5 on a 20 x 20
    buffer the disk crosses the left edge, and [draw_circle] returns a
    buffer; the dialog handler is what raises on that circle. *)
Lemma draw_circle_accepts_left_edge :
  (0 - 5 <? 0) = true
  ∧ draw_circle ring_stroke (gradient 20 20) 0 7 5
    = Ok (paint (ring_stroke 0 7 5 2) (Pixel 0 0 255) (gradient 20 20))
  ∧ circle_accept_body ring_stroke (gradient 20 20) 0 7 5
    = Raise ValueError_out_of_bounds.
Proof. repeat split. Qed.

Lemma draw_circle_raises (circle_stroke : Z → Z → Z → Z → Z → Z → bool)
    (image : buffer) (x y radius : Z) :
  raises (draw_circle circle_stroke image x y radius) = (radius <? 0).
Proof.
  unfold draw_circle, cv2_circle. by destruct (radius <? 0).
Qed.

Lemma circle_accept_body_raises (circle_stroke : Z → Z → Z → Z → Z → Z → bool)
    (image : buffer) (x y radius : Z) :
  raises (circle_accept_body circle_stroke image x y radius)
  = (radius <=? 0) || (x - radius <? 0) || (width image <=? x + radius)
    || (y - radius <? 0) || (height image <=? y + radius).
Proof.
  unfold circle_accept_body.
  destruct (Z.leb_spec radius 0) as [Hr|Hr]; [done|]. simpl.
  destruct ((x - radius <? 0) || (width image <=? x + radius)
            || (y - radius <? 0) || (height image <=? y + radius)); [done|].
  rewrite draw_circle_raises. lia.
Qed.

(** C5, amended. [draw_circle] validates nothing: for every centre and
    every radius >= 0 it returns the copy with the stroke painted on it,
    and only OpenCV's own check refuses a negative radius.  The handler of
    the circle dialog validates before it calls: it raises exactly when
    radius <= 0 or the disk leaves the buffer, and then both image slots
    keep their content and the error is shown. *)
Theorem circle_validated_by_dialog
    (circle_stroke : Z → Z → Z → Z → Z → Z → bool)
    (self : window) (image : buffer) (x y radius : Z) :
  win_image self = Some image →
  let invalid :=
    (radius <=? 0) || (x - radius <? 0) || (width image <=? x + radius)
    || (y - radius <? 0) || (height image <=? y + radius) in
  let self' := draw_circle_dialog circle_stroke self x y radius in
  (0 <= radius →
     draw_circle circle_stroke image x y radius
     = Ok (paint (circle_stroke x y radius 2) (Pixel 0 0 255) image))
  ∧ raises (draw_circle circle_stroke image x y radius) = (radius <? 0)
  ∧ raises (circle_accept_body circle_stroke image x y radius) = invalid
  ∧ win_image self' = win_image self
  ∧ (invalid = true →
       win_processed_image self' = win_processed_image self
       ∧ ∃ e, win_errors self' = win_errors self ++ [e]).
Proof.
  intros Himg invalid self'. subst self'. split; [|split; [|split]].
  - intros Hr. unfold draw_circle, cv2_circle.
    destruct (Z.ltb_spec radius 0); [lia|done].
  - apply draw_circle_raises.
  - apply circle_accept_body_raises.
  - unfold draw_circle_dialog. rewrite Himg.
    pose proof (circle_accept_body_raises circle_stroke image x y radius) as Hr.
    fold invalid in Hr.
    destruct (circle_accept_body circle_stroke image x y radius) as [out|e];
      simpl in *; split; try done.
    + intros Hi. congruence.
    + intros _. split; eauto.
Qed.

Lemma circle_validated_by_dialog_witness :
  let image := gradient 20 20 in
  let self := Window (Some image) None [] in
  let self' := draw_circle_dialog ring_stroke self 0 7 5 in
  (0 <= 5 →
     draw_circle ring_stroke image 0 7 5
     = Ok (paint (ring_stroke 0 7 5 2) (Pixel 0 0 255) image))
  ∧ raises (draw_circle ring_stroke image 0 7 5) = false
  ∧ raises (circle_accept_body ring_stroke image 0 7 5) = true
  ∧ win_image self' = win_image self
  ∧ (true = true →
       win_processed_image self' = win_processed_image self
       ∧ ∃ e, win_errors self' = win_errors self ++ [e]).
Proof.
  apply (circle_validated_by_dialog ring_stroke
           (Window (Some (gradient 20 20)) None []) (gradient 20 20) 0 7 5).
  reflexivity.
Defined.

(** ** C4, C9: the conversion of [load_image] *)

Lemma normalize_other (c : nat) (rows : list (list (list Z))) :
  c ≠ 4%nat → normalize (Arr3 c rows) = Arr3 c rows.
Proof. intros Hc. simpl. by rewrite bool_decide_eq_false_2. Qed.

Lemma normalize_channels (image : ndarray) :
  ndim image = 2%nat ∨ channels image = 4%nat →
  channels (normalize image) = 3%nat.
Proof.
  destruct image as [rows|c rows]; simpl; [reflexivity|].
  intros [Hc|Hc]; [discriminate|]. subst c. reflexivity.
Qed.

(** C4. A decoded buffer with two values per pixel passes through the
    conversion unchanged: [load_image] returns it, with two channels, and
    reports no error. *)
Theorem load_image_keeps_two_channels :
  let raw := Arr3 2 [[[7; 9]]] in
  channels raw = 2%nat
  ∧ normalize raw = raw
  ∧ load_image_body (Some raw) = Ok raw
  ∧ load_image (Some raw) = (Some raw, []).
Proof. repeat split. Qed.

(** C9. On a buffer that already has 3 channels the conversion is the
    identity, so applying it twice equals applying it once. *)
Theorem normalize_idempotent_on_3_channels (x : ndarray) :
  ndim x = 3%nat → channels x = 3%nat →
  normalize (normalize x) = normalize x.
Proof.
  destruct x as [rows|c rows]; simpl; [done|]. intros _ ->. reflexivity.
Qed.

Lemma normalize_idempotent_on_3_channels_witness :
  normalize (normalize (Arr3 3 [[[1; 2; 3]; [4; 5; 6]]]))
  = normalize (Arr3 3 [[[1; 2; 3]; [4; 5; 6]]]).
Proof.
  apply (normalize_idempotent_on_3_channels (Arr3 3 [[[1; 2; 3]; [4; 5; 6]]]));
    reflexivity.
Defined.

(** X17. The conversion is idempotent on every decoded buffer. *)
Lemma normalize_idempotent (x : ndarray) : normalize (normalize x) = normalize x.
Proof.
  destruct x as [rows|c rows]; simpl; [done|].
  case_bool_decide as Hc; simpl; [done|]. by rewrite bool_decide_eq_false_2.
Qed.

(** ** C8: the camera protocol *)

Lemma count_calls_app (ev : cam_event) (dev : camera) (evs : list cam_event)
    (o : bool) (f : option ndarray) (h : bool) :
  count_calls ev (Camera o f h (calls dev ++ evs))
  = (count_calls ev dev + length (filter (λ e, e = ev) evs))%nat.
Proof. unfold count_calls. simpl. by rewrite filter_app, length_app. Qed.

(** What one call of [capture_from_camera] does, case by case. *)
Lemma capture_from_camera_run (dev : camera) :
  held dev = false →
  capture_from_camera dev =
    if will_open dev then
      match next_frame dev with
      | Some frame =>
          (Camera true (Some frame) false
             (calls dev ++ [EvVideoCapture 0; EvIsOpened; EvRead; EvRelease]),
           Ok (Some frame))
      | None =>
          (Camera true None false
             (calls dev ++ [EvVideoCapture 0; EvIsOpened; EvRead; EvRelease;
                            EvCritical Exception_no_frame]),
           Ok None)
      end
    else
      (Camera false (next_frame dev) false
         (calls dev ++ [EvVideoCapture 0; EvIsOpened;
                        EvCritical Exception_camera_unavailable]),
       Ok None).
Proof.
  destruct dev as [o f h cs]. simpl. intros ->.
  unfold capture_from_camera, cam_try, mbind, cam_bind, VideoCapture, isOpened,
    read, release, critical, cam_raise, mret, cam_ret, log.
  destruct o; simpl; [destruct f as [frame|]; simpl|];
    rewrite <- ?app_assoc; reflexivity.
Qed.

(** C8. Entered without the device, [capture_from_camera] ends without it
    on every path.  When the device does not open it is never read nor
    released and the unavailable-camera exception is reported; when it
    opens it is read exactly once and released right after the read,
    whether the read delivered a frame (returned) or not (the no-frame
    exception is reported); a reported exception makes the result [None]. *)
Theorem capture_from_camera_releases (dev : camera) :
  held dev = false →
  let '(dev', r) := capture_from_camera dev in
  held dev' = false
  ∧ count_calls EvRead dev'
    = (count_calls EvRead dev + (if will_open dev then 1 else 0))%nat
  ∧ count_calls EvRelease dev'
    = (count_calls EvRelease dev + (if will_open dev then 1 else 0))%nat
  ∧ (will_open dev = false →
       r = Ok None
       ∧ calls dev' = calls dev ++ [EvVideoCapture 0; EvIsOpened;
                                    EvCritical Exception_camera_unavailable])
  ∧ (will_open dev = true → next_frame dev = None →
       r = Ok None
       ∧ calls dev' = calls dev ++ [EvVideoCapture 0; EvIsOpened; EvRead;
                                    EvRelease; EvCritical Exception_no_frame])
  ∧ (will_open dev = true → ∀ frame, next_frame dev = Some frame →
       r = Ok (Some frame)
       ∧ calls dev' = calls dev ++ [EvVideoCapture 0; EvIsOpened; EvRead;
                                    EvRelease]).
Proof.
  intros Hheld. rewrite (capture_from_camera_run dev Hheld).
  destruct (will_open dev) eqn:Ho; [destruct (next_frame dev) as [f|] eqn:Hf|];
    rewrite !count_calls_app; simpl;
    repeat split; try done; try congruence; intros; simplify_eq; done.
Qed.

Lemma capture_from_camera_releases_witness :
  let dev := Camera true None false [] in
  let '(dev', r) := capture_from_camera dev in
  held dev' = false
  ∧ count_calls EvRead dev' = (count_calls EvRead dev + 1)%nat
  ∧ count_calls EvRelease dev' = (count_calls EvRelease dev + 1)%nat
  ∧ (true = false →
       r = Ok None
       ∧ calls dev' = calls dev ++ [EvVideoCapture 0; EvIsOpened;
                                    EvCritical Exception_camera_unavailable])
  ∧ (true = true → @None ndarray = None →
       r = Ok None
       ∧ calls dev' = calls dev ++ [EvVideoCapture 0; EvIsOpened; EvRead;
                                    EvRelease; EvCritical Exception_no_frame])
  ∧ (true = true → ∀ frame, @None ndarray = Some frame →
       r = Ok (Some frame)
       ∧ calls dev' = calls dev ++ [EvVideoCapture 0; EvIsOpened; EvRead;
                                    EvRelease]).
Proof.
  apply (capture_from_camera_releases (Camera true None false [])).
  reflexivity.
Defined.

(** ** C3: what a transform shares with its input *)

Lemma has_shape_width (v : buffer) (h w : nat) :
  has_shape v h w → h = 0%nat ∨ Z.to_nat (width v) = w.
Proof.
  intros [Hh Hw]. destruct v as [|row v]; simpl in *; [by left|right].
  apply Forall_cons_1 in Hw as [Hrow _]. lia.
Qed.

Lemma has_shape_own (v : buffer) (h w : nat) :
  has_shape v h w → has_shape v (length v) (Z.to_nat (width v)).
Proof.
  intros Hs. pose proof Hs as [Hh Hw].
  destruct (has_shape_width v h w Hs) as [->| ->]; [|by split].
  apply nil_length_inv in Hh. subst v. split; [done|constructor].
Qed.

(** A window at least as large as the storage shows all of it. *)
Lemma view_of_all (v : buffer) (l : positive) (h w : nat) :
  has_shape v h w → view_of v (Array l 0 0 h w) = v.
Proof.
  intros [Hh Hw]. unfold view_of. simpl.
  rewrite drop_0, take_ge by lia. clear Hh.
  induction Hw as [|row v Hrow Hv IH]; simpl; [done|].
  rewrite drop_0, take_ge by lia. f_equal. apply IH.
Qed.

Lemma view_of_shape (buf : buffer) (a : array) (h w : nat) :
  has_shape buf h w →
  (row0 a + nrows a ≤ h)%nat → (col0 a + ncols a ≤ w)%nat →
  has_shape (view_of buf a) (nrows a) (ncols a).
Proof.
  intros [Hh Hw] Hr Hc. unfold view_of. split.
  - rewrite length_map, length_take, length_drop. lia.
  - rewrite Forall_map. apply Forall_take, Forall_drop.
    eapply Forall_impl; [exact Hw|]. simpl. intros row Hrow.
    rewrite length_take, length_drop. lia.
Qed.

Lemma deref_shape (σ : gmap positive buffer) (a : array) :
  array_ok σ a → has_shape (deref σ a) (nrows a) (ncols a).
Proof.
  intros (buf & h & w & Hbuf & Hs & Hr & Hc). unfold deref. rewrite Hbuf.
  by apply (view_of_shape buf a h w).
Qed.

Lemma array_ok_allocated (σ : gmap positive buffer) (a : array) :
  array_ok σ a → base a ∈ dom σ.
Proof.
  intros (buf & h & w & Hbuf & _). apply elem_of_dom. by exists buf.
Qed.

(** Storage that an array does not read is storage it does not see change. *)
Lemma deref_insert_ne (σ : gmap positive buffer) (a : array) (l : positive)
    (v : buffer) :
  base a ≠ l → deref (<[l := v]> σ) a = deref σ a.
Proof. intros Hne. unfold deref. by rewrite lookup_insert_ne. Qed.

Lemma deref_alter_ne (σ : gmap positive buffer) (a : array) (l : positive)
    (f : buffer → buffer) :
  base a ≠ l → deref (alter f l σ) a = deref σ a.
Proof. intros Hne. unfold deref. by rewrite lookup_alter_ne. Qed.

Lemma deref_setitem_ne (σ : gmap positive buffer) (a out : array) (i j : nat)
    (p : pixel) :
  base out ≠ base a → deref (setitem σ out i j p) a = deref σ a.
Proof.
  intros Hne. unfold setitem.
  destruct (bool_decide (i < nrows out)%nat && bool_decide (j < ncols out)%nat);
    [|done].
  by apply deref_alter_ne.
Qed.

Lemma alloc_spec (σ : gmap positive buffer) (content : buffer) (h w : nat) :
  has_shape content h w →
  let '(σ', out) := alloc σ content in
  (base out ∉ dom σ)
  ∧ σ' = <[base out := content]> σ
  ∧ deref σ' out = content.
Proof.
  intros Hs. unfold alloc. simpl. split; [apply is_fresh|]. split; [done|].
  unfold deref. simpl. rewrite lookup_insert_eq.
  apply (view_of_all content _ _ _ (has_shape_own content h w Hs)).
Qed.

Lemma alloc_frame (σ : gmap positive buffer) (content : buffer) (a : array) :
  base a ∈ dom σ →
  base (alloc σ content).2 ≠ base a
  ∧ deref (alloc σ content).1 a = deref σ a.
Proof.
  intros Ha. unfold alloc. simpl.
  assert (fresh (dom σ) ≠ base a) as Hne.
  { intros Heq. apply (is_fresh (dom σ)). by rewrite Heq. }
  split; [done|]. by apply deref_insert_ne.
Qed.

Lemma slice_bound_range (n i : Z) : 0 <= n → 0 <= slice_bound n i <= n.
Proof. unfold slice_bound. intros Hn. destruct (Z.ltb_spec i 0); lia. Qed.

Lemma take_drop_window {A} (l : list A) (r n s k : nat) :
  (s + k ≤ n)%nat →
  take k (drop s (take n (drop r l))) = take k (drop (r + s) l).
Proof.
  intros Hsk. apply list_eq. intros i.
  destruct (decide (i < k)%nat) as [Hi|Hi].
  - rewrite !lookup_take_lt by lia. rewrite !lookup_drop.
    rewrite lookup_take_lt by lia. rewrite lookup_drop. f_equal. lia.
  - rewrite !lookup_take_ge by lia. reflexivity.
Qed.

Lemma py_slice_window {A} (l : list A) (r n : nat) (start stop : Z) :
  (r + n ≤ length l)%nat →
  py_slice (take n (drop r l)) start stop
  = take (Z.to_nat (slice_bound (Z.of_nat n) stop - slice_bound (Z.of_nat n) start))
         (drop (r + Z.to_nat (slice_bound (Z.of_nat n) start)) l).
Proof.
  intros Hlen. unfold py_slice.
  assert (length (take n (drop r l)) = n) as ->
    by (rewrite length_take, length_drop; lia).
  pose proof (slice_bound_range (Z.of_nat n) start ltac:(lia)).
  pose proof (slice_bound_range (Z.of_nat n) stop ltac:(lia)).
  apply take_drop_window. lia.
Qed.

Lemma py_slice_map {A B} (f : A → B) (l : list A) (start stop : Z) :
  py_slice (map f l) start stop = map f (py_slice l start stop).
Proof.
  unfold py_slice. rewrite length_map.
  by rewrite skipn_map, firstn_map.
Qed.

(** The view that slicing yields shows what [crop_image] computes. *)
Lemma view_of_slice_view (buf : buffer) (a : array) (h w : nat)
    (x1 y1 x2 y2 : Z) :
  has_shape buf h w →
  (row0 a + nrows a ≤ h)%nat → (col0 a + ncols a ≤ w)%nat →
  view_of buf (slice_view a x1 y1 x2 y2)
  = crop_image (view_of buf a) x1 y1 x2 y2.
Proof.
  intros [Hh Hw] Hr Hc. unfold crop_image, view_of, slice_view. simpl.
  rewrite py_slice_map, map_map, py_slice_window by lia.
  apply Forall_fmap_ext_1. apply Forall_take, Forall_drop.
  eapply Forall_impl; [exact Hw|]. simpl. intros row Hrow.
  rewrite py_slice_window by lia. reflexivity.
Qed.

Lemma deref_slice_view (σ : gmap positive buffer) (a : array) (x1 y1 x2 y2 : Z) :
  array_ok σ a →
  deref σ (slice_view a x1 y1 x2 y2) = crop_image (deref σ a) x1 y1 x2 y2.
Proof.
  intros (buf & h & w & Hbuf & Hs & Hr & Hc). unfold deref. simpl.
  rewrite Hbuf. by apply (view_of_slice_view buf a h w).
Qed.

Lemma alloc_independent (σ : gmap positive buffer) (image : array)
    (content : buffer) (h w : nat) :
  array_ok σ image → has_shape content h w →
  let '(σ', out) := alloc σ content in
  independent_of σ σ' image out ∧ deref σ' out = content.
Proof.
  intros Hok Hs. pose proof (array_ok_allocated σ image Hok) as Hdom.
  pose proof (alloc_spec σ content h w Hs) as Hspec.
  pose proof (alloc_frame σ content image Hdom) as [Hne Hframe].
  destruct (alloc σ content) as [σ' out]. simpl in *.
  destruct Hspec as (_ & _ & Hout).
  split; [|exact Hout]. split; [exact Hframe|]. split; [exact Hne|].
  intros i j p. rewrite deref_setitem_ne by exact Hne. exact Hframe.
Qed.

Lemma paint_shape (stroke : Z → Z → bool) (color : pixel) (img : buffer)
    (h w : nat) :
  has_shape img h w → has_shape (paint stroke color img) h w.
Proof.
  intros [Hh Hw]. unfold paint. split; [by rewrite length_imap|].
  apply Forall_lookup_2. intros y row Hrow.
  rewrite list_lookup_imap in Hrow.
  destruct (img !! y) as [row0|] eqn:Hy; [|done]. simpl in Hrow.
  injection Hrow as <-. rewrite length_imap.
  exact (Forall_lookup_1 _ _ _ _ Hw Hy).
Qed.

Lemma extract_channel_shape (image : buffer) (channel : Z) (h w : nat) :
  has_shape image h w → has_shape (extract_channel image channel) h w.
Proof. rewrite extract_channel_map. apply map_map_shape. Qed.

Lemma array_ok_insert (σ : gmap positive buffer) (a : array) (l : positive)
    (v : buffer) :
  l ∉ dom σ → array_ok σ a → array_ok (<[l := v]> σ) a.
Proof.
  intros Hl (buf & h & w & Hbuf & Hrest). exists buf, h, w.
  split; [|exact Hrest]. rewrite lookup_insert_ne; [done|].
  intros ->. apply Hl. apply elem_of_dom. by exists buf.
Qed.

Lemma has_shape_as (v v' : buffer) (h w : nat) :
  has_shape v h w → has_shape v' h w →
  has_shape v' (length v) (Z.to_nat (width v)).
Proof.
  intros Hv Hv'. pose proof Hv as [Hh _]. pose proof Hv' as [Hh' Hw'].
  destruct (has_shape_width v h w Hv) as [->| ->]; [|by rewrite Hh].
  apply nil_length_inv in Hh'. subst v'. rewrite Hh. split; [done|constructor].
Qed.

Section ByRefProperties.

Variable hue_of sat_of : pixel → Z.
Variable hsv2bgr : pixel → pixel.
Variable circle_stroke : Z → Z → Z → Z → Z → Z → bool.

Lemma byref_extract_channel (σ : gmap positive buffer) (image : array)
    (channel : Z) :
  array_ok σ image →
  let '(σ', out) := ByRef.extract_channel σ image channel in
  independent_of σ σ' image out
  ∧ deref σ' out = extract_channel (deref σ image) channel.
Proof.
  intros Hok. unfold ByRef.extract_channel.
  apply (alloc_independent σ image _ (nrows image) (ncols image) Hok).
  apply extract_channel_shape. by apply deref_shape.
Qed.

Lemma byref_adjust_brightness (σ : gmap positive buffer) (image : array)
    (value : Z) :
  array_ok σ image →
  let '(σ', out) := ByRef.adjust_brightness hue_of sat_of hsv2bgr σ image value in
  independent_of σ σ' image out
  ∧ deref σ' out
    = adjust_brightness hue_of sat_of hsv2bgr (deref σ image) value.
Proof.
  intros Hok. pose proof (deref_shape σ image Hok) as Hs.
  unfold ByRef.adjust_brightness.
  set (hsv0 := cvtColor_BGR2HSV hue_of sat_of (deref σ image)).
  assert (has_shape hsv0 (nrows image) (ncols image)) as Hs0
    by (by apply map_map_shape).
  unfold alloc at 1. simpl. set (l1 := fresh (dom σ)).
  assert (l1 ∉ dom σ) as Hl1 by apply is_fresh.
  assert (base image ≠ l1) as Hne1.
  { intros Heq. apply Hl1. rewrite <- Heq. by apply array_ok_allocated. }
  rewrite alter_insert_eq.
  set (hsv1 := set_plane2 hsv0 _).
  assert (hsv1 = brightened_hsv hue_of sat_of (deref σ image) value) as Hhsv1
    by reflexivity.
  assert (has_shape hsv1 (nrows image) (ncols image)) as Hs1.
  { rewrite Hhsv1, brightened_hsv_map. by apply map_map_shape. }
  assert (deref (<[l1:=hsv1]> σ)
            (Array l1 0 0 (length hsv0) (Z.to_nat (width hsv0))) = hsv1) as ->.
  { unfold deref. simpl. rewrite lookup_insert_eq. apply view_of_all.
    by apply (has_shape_as hsv0 hsv1 (nrows image) (ncols image)). }
  pose proof (array_ok_insert σ image l1 hsv1 Hl1 Hok) as Hok1.
  pose proof (alloc_independent (<[l1:=hsv1]> σ) image
                (cvtColor_HSV2BGR hsv2bgr hsv1) (nrows image) (ncols image)
                Hok1 ltac:(by apply map_map_shape)) as Hind.
  unfold alloc in Hind. simpl in Hind.
  destruct Hind as [(Hframe & Hne & Hwrite) Hout].
  rewrite (deref_insert_ne σ image l1 hsv1 Hne1) in Hframe, Hwrite.
  split; [exact (conj Hframe (conj Hne Hwrite))|].
  rewrite Hout, Hhsv1. reflexivity.
Qed.

Lemma byref_draw_circle (σ : gmap positive buffer) (image : array)
    (x y radius : Z) :
  array_ok σ image →
  let '(σ', r) := ByRef.draw_circle circle_stroke σ image x y radius in
  deref σ' image = deref σ image
  ∧ match r with
    | Ok out =>
        independent_of σ σ' image out
        ∧ draw_circle circle_stroke (deref σ image) x y radius
          = Ok (deref σ' out)
    | Raise e =>
        draw_circle circle_stroke (deref σ image) x y radius = Raise e
    end.
Proof.
  intros Hok. pose proof (deref_shape σ image Hok) as Hs.
  unfold ByRef.draw_circle, draw_circle, cv2_circle, alloc. simpl.
  set (l1 := fresh (dom σ)).
  assert (l1 ∉ dom σ) as Hl1 by apply is_fresh.
  assert (base image ≠ l1) as Hne.
  { intros Heq. apply Hl1. rewrite <- Heq. by apply array_ok_allocated. }
  destruct (radius <? 0); simpl.
  { split; [by apply deref_insert_ne|done]. }
  rewrite alter_insert_eq.
  set (painted := paint _ _ _).
  assert (has_shape painted (nrows image) (ncols image)) as Hp
    by (by apply paint_shape).
  split; [by apply deref_insert_ne|]. split.
  - split; [by apply deref_insert_ne|]. split; [simpl; congruence|].
    intros i j p. rewrite deref_setitem_ne by (simpl; congruence).
    by apply deref_insert_ne.
  - unfold mret, result_ret. f_equal. unfold deref. simpl.
    rewrite lookup_insert_eq. symmetry. apply view_of_all.
    by apply (has_shape_as (deref σ image) painted (nrows image) (ncols image)).
Qed.

End ByRefProperties.

(** C3, refuted as stated: the buffer [crop_image] returns for a valid
    region is a view of its input's storage, and a pixel written through
    it, at (0, 0) of the result, is read back from the input at (5, 5). *)
Lemma crop_image_result_aliases_input :
  let σ : gmap positive buffer := {[ 1%positive := gradient 20 20 ]} in
  let image := Array 1 0 0 20 20 in
  let '(σ', out) := ByRef.crop_image σ image 5 5 15 15 in
  let σ'' := setitem σ' out 0 0 (Pixel 9 9 9) in
  base out = base image
  ∧ pixel_at (deref σ image) 5 5 = Some (Pixel 5 5 10)
  ∧ pixel_at (deref σ'' out) 0 0 = Some (Pixel 9 9 9)
  ∧ pixel_at (deref σ'' image) 5 5 = Some (Pixel 9 9 9).
Proof. vm_compute. repeat split. Qed.

(** C3, amended. Every operation leaves the content of its input as it
    was.  [extract_channel], [adjust_brightness] and [draw_circle] return
    an array with storage of its own, so that no write through the result
    shows in the input; [crop_image] returns a view of the input's storage.
    In each case the result shows what the operation computes by value. *)
Theorem transforms_leave_input_unchanged
    (hue_of sat_of : pixel → Z) (hsv2bgr : pixel → pixel)
    (circle_stroke : Z → Z → Z → Z → Z → Z → bool)
    (σ : gmap positive buffer) (image : array) :
  array_ok σ image →
  (∀ channel,
     let '(σ', out) := ByRef.extract_channel σ image channel in
     independent_of σ σ' image out
     ∧ deref σ' out = extract_channel (deref σ image) channel)
  ∧ (∀ value,
       let '(σ', out) :=
         ByRef.adjust_brightness hue_of sat_of hsv2bgr σ image value in
       independent_of σ σ' image out
       ∧ deref σ' out
         = adjust_brightness hue_of sat_of hsv2bgr (deref σ image) value)
  ∧ (∀ x y radius,
       let '(σ', r) := ByRef.draw_circle circle_stroke σ image x y radius in
       deref σ' image = deref σ image
       ∧ match r with
         | Ok out =>
             independent_of σ σ' image out
             ∧ draw_circle circle_stroke (deref σ image) x y radius
               = Ok (deref σ' out)
         | Raise e =>
             draw_circle circle_stroke (deref σ image) x y radius = Raise e
         end)
  ∧ (∀ x1 y1 x2 y2,
       let '(σ', out) := ByRef.crop_image σ image x1 y1 x2 y2 in
       σ' = σ
       ∧ base out = base image
       ∧ deref σ' out = crop_image (deref σ image) x1 y1 x2 y2).
Proof.
  intros Hok. split; [|split; [|split]].
  - intros channel. by apply byref_extract_channel.
  - intros value. by apply byref_adjust_brightness.
  - intros x y radius. by apply byref_draw_circle.
  - intros x1 y1 x2 y2. simpl. split; [done|]. split; [done|].
    by apply deref_slice_view.
Qed.

Lemma transforms_leave_input_unchanged_witness :
  let σ : gmap positive buffer := {[ 1%positive := gradient 20 20 ]} in
  let image := Array 1 0 0 20 20 in
  array_ok σ image
  ∧ let '(σ', r) := ByRef.draw_circle ring_stroke σ image 10 10 5 in
    deref σ' image = deref σ image
    ∧ match r with
      | Ok out =>
          independent_of σ σ' image out
          ∧ draw_circle ring_stroke (deref σ image) 10 10 5 = Ok (deref σ' out)
      | Raise e => draw_circle ring_stroke (deref σ image) 10 10 5 = Raise e
      end.
Proof.
  assert (array_ok ({[ 1%positive := gradient 20 20 ]} : gmap positive buffer)
            (Array 1 0 0 20 20)) as Hok.
  { exists (gradient 20 20), 20%nat, 20%nat.
    split; [reflexivity|]. split; [by apply has_shapeb_spec; vm_compute|].
    simpl. lia. }
  split; [exact Hok|].
  exact (proj1 (proj2 (proj2
    (transforms_leave_input_unchanged ch0 ch1 id ring_stroke _ _ Hok))) 10 10 5).
Defined.

(** * Further properties of the code *)

(** ** Cropping with any integers *)

Lemma py_slice_length_any {A} (l : list A) (start stop : Z) :
  length (py_slice l start stop)
  = Z.to_nat (slice_bound (Z.of_nat (length l)) stop
              - slice_bound (Z.of_nat (length l)) start).
Proof.
  unfold py_slice.
  pose proof (slice_bound_range (Z.of_nat (length l)) start ltac:(lia)).
  pose proof (slice_bound_range (Z.of_nat (length l)) stop ltac:(lia)).
  rewrite length_take, length_drop. lia.
Qed.

Lemma slice_bound_nonneg (n i : Z) : 0 <= i → slice_bound n i = Z.min i n.
Proof. unfold slice_bound. intros Hi. destruct (Z.ltb_spec i 0); lia. Qed.

Lemma py_slice_length_nonneg {A} (l : list A) (start stop : Z) :
  0 <= start → 0 <= stop →
  length (py_slice l start stop)
  = Z.to_nat (Z.min stop (Z.of_nat (length l)) - start).
Proof.
  intros H1 H2. rewrite py_slice_length_any, !slice_bound_nonneg by lia. lia.
Qed.

Lemma Forall_py_slice {A} (P : A → Prop) (l : list A) (start stop : Z) :
  Forall P l → Forall P (py_slice l start stop).
Proof. intros Hl. unfold py_slice. by apply Forall_take, Forall_drop. Qed.

Lemma crop_image_shape_clipped (image : buffer) (h w : nat) (x1 y1 x2 y2 : Z) :
  has_shape image h w →
  0 <= x1 → 0 <= y1 → 0 <= x2 → 0 <= y2 →
  has_shape (crop_image image x1 y1 x2 y2)
            (Z.to_nat (Z.min y2 (Z.of_nat h) - y1))
            (Z.to_nat (Z.min x2 (Z.of_nat w) - x1)).
Proof.
  intros [Hh Hw] Hx1 Hy1 Hx2 Hy2. unfold crop_image. split.
  - rewrite length_map, py_slice_length_nonneg by lia. by rewrite Hh.
  - rewrite Forall_map. apply Forall_py_slice.
    eapply Forall_impl; [exact Hw|]. simpl. intros row Hrow.
    rewrite py_slice_length_nonneg by lia. by rewrite Hrow.
Qed.

(** X1. A region that reaches beyond the buffer is clipped to it: for corners
    that are not negative the result has min(y2, h) - y1 rows and
    min(x2, w) - x1 columns, none where that is negative. *)
Theorem crop_image_clips (image : buffer) (h w : nat) (x1 y1 x2 y2 : Z) :
  has_shape image h w →
  0 <= x1 → 0 <= y1 → 0 <= x2 → 0 <= y2 →
  has_shape (crop_image image x1 y1 x2 y2)
            (Z.to_nat (Z.min y2 (Z.of_nat h) - y1))
            (Z.to_nat (Z.min x2 (Z.of_nat w) - x1)).
Proof. apply crop_image_shape_clipped. Qed.

Lemma crop_image_clips_witness :
  has_shape (crop_image (gradient 20 20) 15 15 30 30) 5 5.
Proof.
  apply (crop_image_clips (gradient 20 20) 20 20 15 15 30 30);
    [by apply has_shapeb_spec; vm_compute | lia..].
Defined.

Lemma py_slice_all {A} (l : list A) (stop : Z) :
  Z.of_nat (length l) <= stop → py_slice l 0 stop = l.
Proof.
  intros Hstop. unfold py_slice.
  rewrite !slice_bound_nonneg by lia.
  rewrite (Z.min_l 0), (Z.min_r stop) by lia. change (Z.to_nat 0) with 0%nat.
  rewrite drop_0, take_ge by lia. reflexivity.
Qed.

(** X2. The region that covers the buffer, or more, gives the buffer back. *)
Theorem crop_image_whole (image : buffer) (h w : nat) (x2 y2 : Z) :
  has_shape image h w → Z.of_nat w <= x2 → Z.of_nat h <= y2 →
  crop_image image 0 0 x2 y2 = image.
Proof.
  intros [Hh Hw] Hx Hy. unfold crop_image. rewrite py_slice_all by lia.
  clear Hh. induction Hw as [|row image Hrow _ IH]; simpl; [done|].
  rewrite py_slice_all by lia. by rewrite IH.
Qed.

Lemma crop_image_whole_witness :
  crop_image (gradient 20 20) 0 0 20 20 = gradient 20 20.
Proof.
  apply (crop_image_whole (gradient 20 20) 20 20 20 20);
    [by apply has_shapeb_spec; vm_compute | lia..].
Defined.

(** X3. Cropping a crop is cropping once, with the inner region moved by the
    outer region's corner. *)
Theorem crop_image_twice (image : buffer) (h w : nat)
    (x1 y1 x2 y2 a b c d : Z) :
  has_shape image h w →
  0 <= x1 <= x2 → x2 <= Z.of_nat w → 0 <= y1 <= y2 → y2 <= Z.of_nat h →
  0 <= a <= c → c <= x2 - x1 → 0 <= b <= d → d <= y2 - y1 →
  crop_image (crop_image image x1 y1 x2 y2) a b c d
  = crop_image image (x1 + a) (y1 + b) (x1 + c) (y1 + d).
Proof.
  intros [Hh Hw] Hx1 Hx2 Hy1 Hy2 Ha Hc Hb Hd. unfold crop_image.
  rewrite py_slice_map, map_map.
  rewrite (py_slice_inside image y1 y2) by lia.
  rewrite py_slice_window by lia.
  rewrite !slice_bound_inside by lia.
  rewrite (py_slice_inside image (y1 + b) (y1 + d)) by lia.
  replace (Z.to_nat y1 + Z.to_nat b)%nat with (Z.to_nat (y1 + b)) by lia.
  replace (y1 + d - (y1 + b)) with (d - b) by lia.
  apply Forall_fmap_ext_1. apply Forall_take, Forall_drop.
  eapply Forall_impl; [exact Hw|]. simpl. intros row Hrow.
  rewrite (py_slice_inside row x1 x2) by lia.
  rewrite py_slice_window by lia.
  rewrite !slice_bound_inside by lia.
  rewrite (py_slice_inside row (x1 + a) (x1 + c)) by lia.
  replace (Z.to_nat x1 + Z.to_nat a)%nat with (Z.to_nat (x1 + a)) by lia.
  replace (x1 + c - (x1 + a)) with (c - a) by lia.
  reflexivity.
Qed.

Lemma crop_image_twice_witness :
  crop_image (crop_image (gradient 20 20) 2 3 18 19) 1 1 11 12
  = crop_image (gradient 20 20) 3 4 13 15.
Proof.
  apply (crop_image_twice (gradient 20 20) 20 20 2 3 18 19 1 1 11 12);
    [by apply has_shapeb_spec; vm_compute | lia..].
Defined.

(** X4. What the crop dialog stores when it accepts: with corners that are not
    negative, the clipped region; the 10 x 10 minimum it checked holds for
    the stored buffer when the region lies inside the image. *)
Theorem crop_dialog_result (self : window) (image : buffer) (h w : nat)
    (x1 y1 x2 y2 : Z) :
  win_image self = Some image → has_shape image h w →
  0 <= x1 → 0 <= y1 →
  raises (crop_accept_body image x1 y1 x2 y2) = false →
  ∃ out,
    win_processed_image (crop_image_dialog self x1 y1 x2 y2) = Some out
    ∧ has_shape out (Z.to_nat (Z.min y2 (Z.of_nat h) - y1))
                    (Z.to_nat (Z.min x2 (Z.of_nat w) - x1))
    ∧ (x2 <= Z.of_nat w → y2 <= Z.of_nat h →
       has_shape out (Z.to_nat (y2 - y1)) (Z.to_nat (x2 - x1))
       ∧ 10 <= y2 - y1 ∧ 10 <= x2 - x1).
Proof.
  intros Himg Hs Hx1 Hy1 Hacc.
  rewrite crop_accept_body_raises in Hacc.
  apply orb_false_elim in Hacc as [Hacc H4].
  apply orb_false_elim in Hacc as [Hacc H3].
  apply orb_false_elim in Hacc as [H1 H2].
  apply Z.leb_gt in H1, H2. apply Z.ltb_ge in H3, H4.
  exists (crop_image image x1 y1 x2 y2). split; [|split].
  - unfold crop_image_dialog, crop_accept_body. rewrite Himg.
    destruct (Z.leb_spec x2 x1); [lia|]. destruct (Z.leb_spec y2 y1); [lia|].
    destruct (Z.ltb_spec (x2 - x1) 10); [lia|].
    destruct (Z.ltb_spec (y2 - y1) 10); [lia|]. reflexivity.
  - apply crop_image_shape_clipped; [done|lia..].
  - intros Hx2 Hy2. split; [|lia].
    apply (crop_image_shape image h w); [done|lia..].
Qed.

Lemma crop_dialog_result_witness :
  ∃ out,
    win_processed_image
      (crop_image_dialog (Window (Some (gradient 20 20)) None []) 15 5 30 15)
    = Some out
    ∧ has_shape out 10 5
    ∧ (30 <= 20 → 15 <= 20 →
       has_shape out 10 15 ∧ 10 <= 15 - 5 ∧ 10 <= 30 - 15).
Proof.
  apply (crop_dialog_result (Window (Some (gradient 20 20)) None [])
           (gradient 20 20) 20 20 15 5 30 15);
    [reflexivity | by apply has_shapeb_spec; vm_compute | lia | lia
    | reflexivity].
Defined.

(** ** Channels: extracting twice, and putting the planes back *)

Lemma map_map_ext {A B} (f g : A → B) (rows : list (list A)) :
  (∀ a, f a = g a) → map (map f) rows = map (map g) rows.
Proof.
  intros Hfg. apply map_ext. intros row. by apply map_ext.
Qed.

Lemma map_map_same {A} (f : A → A) (rows : list (list A)) :
  (∀ a, f a = a) → map (map f) rows = rows.
Proof.
  intros Hf. induction rows as [|row rows IH]; simpl; [done|].
  f_equal; [|exact IH].
  induction row as [|a row IHrow]; simpl; [done|]. by rewrite Hf, IHrow.
Qed.

(** X5. Extracting a channel from an extraction: the same channel again
    changes nothing, another channel leaves a black buffer. *)
Theorem extract_channel_twice (image : buffer) (c c' : Z) :
  0 <= c <= 2 → 0 <= c' <= 2 →
  extract_channel (extract_channel image c) c'
  = if c =? c' then extract_channel image c
    else map (map (λ _, Pixel 0 0 0)) image.
Proof.
  intros Hc Hc'. rewrite !extract_channel_map, map_map_compose.
  destruct (Z.eqb_spec c c') as [Heq|Hne]; apply map_map_ext; intros p;
    unfold isolate;
    destruct (Z.eqb_spec c 0), (Z.eqb_spec c 1),
      (Z.eqb_spec c' 0), (Z.eqb_spec c' 1); simpl; reflexivity || lia.
Qed.

Lemma extract_channel_twice_witness :
  extract_channel (extract_channel (gradient 4 4) 0) 2
  = if 0 =? 2 then extract_channel (gradient 4 4) 0
    else map (map (λ _, Pixel 0 0 0)) (gradient 4 4).
Proof. apply (extract_channel_twice (gradient 4 4) 0 2); lia. Defined.

(** X6. The three extractions hold the whole buffer between them: merging
    plane 0 of the first, plane 1 of the second and plane 2 of the third
    gives the source back. *)
Theorem merge_extracted_planes (image : buffer) :
  merge (get_plane (extract_channel image 0) 0)
        (get_plane (extract_channel image 1) 1)
        (get_plane (extract_channel image 2) 2)
  = image.
Proof.
  rewrite !extract_channel_map. unfold get_plane.
  rewrite !map_map_compose, merge_map.
  apply map_map_same. by intros [b g r].
Qed.

(** ** Brightness: what happens to the value channel *)

(** X7. For 8-bit pixels and a delta the dialog lets through, the value stored
    is the sum while the sum fits 255; beyond, it is the sum less 256, a
    value below the one the pixel had. *)
Theorem brightened_value (hue_of sat_of : pixel → Z) (image : buffer)
    (value x y : Z) (p : pixel) :
  pixel_at image x y = Some p →
  0 <= max3 p <= 255 → 0 <= value <= 100 →
  ∃ q, pixel_at (brightened_hsv hue_of sat_of image value) x y = Some q
    ∧ ch2 q = (if max3 p + value <=? 255 then max3 p + value
               else max3 p + value - 256)
    ∧ (255 < max3 p + value → ch2 q < max3 p).
Proof.
  intros Hp Hv Hvalue. rewrite brightened_hsv_pixel, Hp. simpl.
  eexists. split; [reflexivity|]. simpl.
  destruct (Z.leb_spec (max3 p + value) 255) as [Hle|Hgt].
  - rewrite Z.mod_small by lia. split; [done|lia].
  - assert ((max3 p + value) mod 256 = max3 p + value - 256) as ->.
    { symmetry. apply (Z.mod_unique_pos _ _ 1); lia. }
    split; [done|lia].
Qed.

Lemma brightened_value_witness :
  ∃ q, pixel_at (brightened_hsv ch0 ch1 [[Pixel 10 200 30]] 100) 0 0 = Some q
    ∧ ch2 q = (if 200 + 100 <=? 255 then 200 + 100 else 200 + 100 - 256)
    ∧ (255 < 200 + 100 → ch2 q < 200).
Proof.
  apply (brightened_value ch0 ch1 [[Pixel 10 200 30]] 100 0 0 (Pixel 10 200 30));
    [reflexivity | vm_compute; split; discriminate | lia].
Defined.

(** X8. With delta 0 on 8-bit pixels the assignment stores what was there:
    [adjust_brightness] is the conversion to hue, saturation, value and
    back. *)
Theorem adjust_brightness_zero (hue_of sat_of : pixel → Z)
    (hsv2bgr : pixel → pixel) (image : buffer) :
  Forall (Forall (λ p, 0 <= max3 p <= 255)) image →
  adjust_brightness hue_of sat_of hsv2bgr image 0
  = cvtColor_HSV2BGR hsv2bgr (cvtColor_BGR2HSV hue_of sat_of image).
Proof.
  intros Hu8. unfold adjust_brightness. f_equal.
  rewrite brightened_hsv_map. unfold cvtColor_BGR2HSV.
  induction Hu8 as [|row image Hrow _ IH]; simpl; [done|].
  f_equal; [|exact IH].
  induction Hrow as [|p row Hp _ IHrow]; simpl; [done|].
  f_equal; [|exact IHrow].
  rewrite stored_value_wraps, Z.add_0_r, Z.mod_small by lia. reflexivity.
Qed.

Lemma adjust_brightness_zero_witness :
  adjust_brightness ch0 ch1 id [[Pixel 10 200 30; Pixel 0 0 0]] 0
  = cvtColor_HSV2BGR id (cvtColor_BGR2HSV ch0 ch1 [[Pixel 10 200 30; Pixel 0 0 0]]).
Proof.
  apply (adjust_brightness_zero ch0 ch1 id [[Pixel 10 200 30; Pixel 0 0 0]]).
  repeat constructor; vm_compute; discriminate.
Defined.

(** X9. For a delta within 0..100 on a buffer that has pixels,
    [adjust_brightness] keeps the dimensions, and in the buffer it converts
    back only the value channel differs from the conversion: hue and
    saturation are as OpenCV computed them. *)
Theorem adjust_brightness_touches_value_only (hue_of sat_of : pixel → Z)
    (hsv2bgr : pixel → pixel) (image : buffer) (h w : nat) (value : Z) :
  has_shape image h w → (0 < h)%nat → (0 < w)%nat →
  0 <= value <= 100 →
  has_shape (adjust_brightness hue_of sat_of hsv2bgr image value) h w
  ∧ ∀ x y : Z,
      (λ q, (ch0 q, ch1 q))
        <$> pixel_at (brightened_hsv hue_of sat_of image value) x y
      = (λ q, (ch0 q, ch1 q))
        <$> pixel_at (cvtColor_BGR2HSV hue_of sat_of image) x y.
Proof.
  intros Hs _ _ _. split.
  - unfold adjust_brightness, cvtColor_HSV2BGR.
    rewrite brightened_hsv_map. by do 2 apply map_map_shape.
  - intros x y. rewrite brightened_hsv_pixel. unfold cvtColor_BGR2HSV.
    rewrite pixel_at_map_map. by destruct (pixel_at image x y).
Qed.

Lemma adjust_brightness_touches_value_only_witness :
  has_shape (adjust_brightness ch0 ch1 id (gradient 4 4) 100) 4 4
  ∧ ∀ x y : Z,
      (λ q, (ch0 q, ch1 q))
        <$> pixel_at (brightened_hsv ch0 ch1 (gradient 4 4) 100) x y
      = (λ q, (ch0 q, ch1 q))
        <$> pixel_at (cvtColor_BGR2HSV ch0 ch1 (gradient 4 4)) x y.
Proof.
  apply (adjust_brightness_touches_value_only ch0 ch1 id (gradient 4 4) 4 4 100);
    [by apply has_shapeb_spec; vm_compute | lia..].
Defined.

(** ** The circle: what the dialog lets through *)

Lemma circle_accept_body_ok (circle_stroke : Z → Z → Z → Z → Z → Z → bool)
    (image : buffer) (x y radius : Z) :
  raises (circle_accept_body circle_stroke image x y radius) = false →
  circle_accept_body circle_stroke image x y radius
  = Ok (paint (circle_stroke x y radius 2) (Pixel 0 0 255) image).
Proof.
  unfold circle_accept_body.
  destruct (Z.leb_spec radius 0) as [Hr|Hr]; [done|].
  destruct ((x - radius <? 0) || (width image <=? x + radius)
            || (y - radius <? 0) || (height image <=? y + radius)); [done|].
  unfold draw_circle, cv2_circle. by destruct (Z.ltb_spec radius 0); [lia|].
Qed.

Lemma crop_accept_body_ok (image : buffer) (x1 y1 x2 y2 : Z) :
  raises (crop_accept_body image x1 y1 x2 y2) = false →
  crop_accept_body image x1 y1 x2 y2 = Ok (crop_image image x1 y1 x2 y2).
Proof.
  unfold crop_accept_body.
  destruct ((x2 <=? x1) || (y2 <=? y1)); [done|].
  by destruct ((x2 - x1 <? 10) || (y2 - y1 <? 10)).
Qed.

(** X11. The circle dialog never lets OpenCV's own check fail: whatever is
    entered, the error it shows is one of its two own, never OpenCV's. *)
Theorem circle_dialog_never_cv2_error
    (circle_stroke : Z → Z → Z → Z → Z → Z → bool)
    (image : buffer) (x y radius : Z) :
  circle_accept_body circle_stroke image x y radius ≠ Raise cv2_error
  ∧ (raises (circle_accept_body circle_stroke image x y radius) = false →
     circle_accept_body circle_stroke image x y radius
     = Ok (paint (circle_stroke x y radius 2) (Pixel 0 0 255) image)).
Proof.
  unfold circle_accept_body.
  destruct (Z.leb_spec radius 0) as [Hr|Hr]; [by split|].
  destruct ((x - radius <? 0) || (width image <=? x + radius)
            || (y - radius <? 0) || (height image <=? y + radius));
    [by split|].
  unfold draw_circle, cv2_circle. destruct (Z.ltb_spec radius 0); [lia|].
  by split.
Qed.

Lemma width_nonneg (image : buffer) : 0 <= width image.
Proof. destruct image; simpl; lia. Qed.

(** X12. The circle the dialog proposes, centred with an eighth of the shorter
    side as radius, is accepted as it stands exactly when the shorter side
    has 8 pixels or more. *)
Theorem default_circle_accepted (circle_stroke : Z → Z → Z → Z → Z → Z → bool)
    (image : buffer) :
  let '(x, y, radius) := MainWindow.default_circle image in
  raises (circle_accept_body circle_stroke image x y radius)
  = (Z.min (width image) (height image) <? 8).
Proof.
  unfold MainWindow.default_circle. rewrite circle_accept_body_raises.
  pose proof (width_nonneg image) as Hw.
  assert (0 <= height image) as Hh by (unfold height; lia).
  set (w := width image) in *. set (h := height image) in *.
  destruct (Z.ltb_spec (Z.min w h) 8) as [Hlt|Hge].
  - assert (Z.min w h `div` 8 = 0) as -> by (apply Z.div_small; lia).
    reflexivity.
  - assert (0 < Z.min w h `div` 8) as Hq
      by (apply Z.div_str_pos; lia).
    assert (8 * (Z.min w h `div` 8) <= Z.min w h) as Hq8
      by (apply Z.mul_div_le; lia).
    pose proof (Z.mul_div_le w 2 ltac:(lia)) as Hw2.
    pose proof (Z.mul_div_le h 2 ltac:(lia)) as Hh2.
    pose proof (Z.mul_succ_div_gt w 2 ltac:(lia)) as Hw2'.
    pose proof (Z.mul_succ_div_gt h 2 ltac:(lia)) as Hh2'.
    repeat match goal with
    | |- context [?a <=? ?b] => destruct (Z.leb_spec a b); try lia
    | |- context [?a <? ?b] => destruct (Z.ltb_spec a b); try lia
    end.
Qed.

(** ** The handlers of the shell *)

Lemma brightness_accept_body_raises (hue_of sat_of : pixel → Z)
    (hsv2bgr : pixel → pixel) (image : buffer) (value : Z) :
  raises (brightness_accept_body hue_of sat_of hsv2bgr image value)
  = (value <? 0) || (100 <? value).
Proof.
  unfold brightness_accept_body. by destruct ((value <? 0) || (100 <? value)).
Qed.

(** X13. The brightness dialog lets through exactly the values 0 to 100: then
    the processed image becomes what [adjust_brightness] returns; on any
    other value both image slots keep their content and the error is
    shown. *)
Theorem brightness_validated_by_dialog (hue_of sat_of : pixel → Z)
    (hsv2bgr : pixel → pixel) (self : window) (image : buffer) (value : Z) :
  win_image self = Some image →
  let self' := adjust_brightness_dialog hue_of sat_of hsv2bgr self value in
  win_image self' = win_image self
  ∧ (0 <= value <= 100 →
       win_processed_image self'
       = Some (adjust_brightness hue_of sat_of hsv2bgr image value)
       ∧ win_errors self' = win_errors self)
  ∧ (¬ 0 <= value <= 100 →
       win_processed_image self' = win_processed_image self
       ∧ win_errors self' = win_errors self ++ [ValueError_brightness_range]).
Proof.
  intros Himg self'. subst self'.
  unfold adjust_brightness_dialog, brightness_accept_body. rewrite Himg.
  destruct (Z.ltb_spec value 0), (Z.ltb_spec 100 value); simpl;
    repeat split; intros; try lia; done.
Qed.

Lemma brightness_validated_by_dialog_witness :
  let self := Window (Some (gradient 4 4)) None [] in
  let self' := adjust_brightness_dialog ch0 ch1 id self 101 in
  win_image self' = win_image self
  ∧ (0 <= 101 <= 100 →
       win_processed_image self'
       = Some (adjust_brightness ch0 ch1 id (gradient 4 4) 101)
       ∧ win_errors self' = win_errors self)
  ∧ (¬ 0 <= 101 <= 100 →
       win_processed_image self' = win_processed_image self
       ∧ win_errors self' = win_errors self ++ [ValueError_brightness_range]).
Proof.
  apply (brightness_validated_by_dialog ch0 ch1 id
           (Window (Some (gradient 4 4)) None []) (gradient 4 4) 101).
  reflexivity.
Defined.

Lemma accept_keeps_image (self : window) (r : result buffer) :
  win_image (accept self r) = win_image self
  ∧ (win_errors (accept self r) = win_errors self
     ∨ ∃ e, win_errors (accept self r) = win_errors self ++ [e]).
Proof. destruct r as [out|e]; simpl; split; eauto. Qed.

Lemma accept_and_display_keeps_image (self : window) (r : result buffer) :
  win_image (accept_and_display self r) = win_image self
  ∧ (win_errors (accept_and_display self r) = win_errors self
     ∨ ∃ e, win_errors (accept_and_display self r) = win_errors self ++ [e]).
Proof.
  destruct r as [out|e]; simpl; (split; [done|]); [|eauto].
  unfold display_image_errors.
  destruct ((height out =? 0) || (width out =? 0)); [eauto|].
  left. by rewrite app_nil_r.
Qed.

(** X14. No handler of an operation replaces the current image; without a
    current image it changes nothing at all; and whatever is entered, it
    adds at most one error to those shown before. *)
Theorem handlers_keep_image (hue_of sat_of : pixel → Z)
    (hsv2bgr : pixel → pixel) (circle_stroke : Z → Z → Z → Z → Z → Z → bool)
    (self : window) :
  (∀ channel, keeps_image self (MainWindow.show_channel self channel))
  ∧ (∀ x1 y1 x2 y2, keeps_image self (crop_image_dialog self x1 y1 x2 y2))
  ∧ (∀ value,
       keeps_image self (adjust_brightness_dialog hue_of sat_of hsv2bgr self value))
  ∧ (∀ x y radius,
       keeps_image self (draw_circle_dialog circle_stroke self x y radius)).
Proof.
  unfold keeps_image, MainWindow.show_channel, crop_image_dialog,
    adjust_brightness_dialog, draw_circle_dialog.
  split; [|split; [|split]]; intros;
    destruct (win_image self) as [image|] eqn:Himg;
    try (split; [done|]; split; [done|]; by left).
  - destruct (accept_and_display_keeps_image self
                (crop_accept_body image x1 y1 x2 y2)) as [H1 H2].
    split; [congruence|]. split; [congruence|exact H2].
  - destruct (accept_keeps_image self
                (brightness_accept_body hue_of sat_of hsv2bgr image value))
      as [H1 H2].
    split; [congruence|]. split; [congruence|exact H2].
  - destruct (accept_keeps_image self
                (circle_accept_body circle_stroke image x y radius))
      as [H1 H2].
    split; [congruence|]. split; [congruence|exact H2].
Qed.

(** X15. Edits do not accumulate: whatever the processed image holds from
    before, a handler that succeeds stores the transform of the current
    image. *)
Theorem handlers_start_from_current_image (hue_of sat_of : pixel → Z)
    (hsv2bgr : pixel → pixel) (circle_stroke : Z → Z → Z → Z → Z → Z → bool)
    (self : window) (image : buffer) :
  win_image self = Some image →
  (∀ channel,
     win_processed_image (MainWindow.show_channel self channel)
     = Some (extract_channel image channel))
  ∧ (∀ x1 y1 x2 y2,
       raises (crop_accept_body image x1 y1 x2 y2) = false →
       win_processed_image (crop_image_dialog self x1 y1 x2 y2)
       = Some (crop_image image x1 y1 x2 y2))
  ∧ (∀ value,
       0 <= value <= 100 →
       win_processed_image
         (adjust_brightness_dialog hue_of sat_of hsv2bgr self value)
       = Some (adjust_brightness hue_of sat_of hsv2bgr image value))
  ∧ (∀ x y radius,
       raises (circle_accept_body circle_stroke image x y radius) = false →
       win_processed_image (draw_circle_dialog circle_stroke self x y radius)
       = Some (paint (circle_stroke x y radius 2) (Pixel 0 0 255) image)).
Proof.
  intros Himg. split; [|split; [|split]].
  - intros channel. unfold MainWindow.show_channel. by rewrite Himg.
  - intros x1 y1 x2 y2 Hacc. unfold crop_image_dialog. rewrite Himg.
    by rewrite (crop_accept_body_ok image x1 y1 x2 y2 Hacc).
  - intros value Hv.
    unfold adjust_brightness_dialog, brightness_accept_body. rewrite Himg.
    destruct (Z.ltb_spec value 0); [lia|].
    by destruct (Z.ltb_spec 100 value); [lia|].
  - intros x y radius Hacc. unfold draw_circle_dialog. rewrite Himg.
    by rewrite (circle_accept_body_ok circle_stroke image x y radius Hacc).
Qed.

Lemma handlers_start_from_current_image_witness :
  let self := Window (Some (gradient 20 20)) (Some (gradient 3 3)) [] in
  win_processed_image (MainWindow.show_channel self 1)
  = Some (extract_channel (gradient 20 20) 1).
Proof.
  exact (proj1 (handlers_start_from_current_image ch0 ch1 id ring_stroke
                  (Window (Some (gradient 20 20)) (Some (gradient 3 3)) [])
                  (gradient 20 20) eq_refl) 1).
Defined.

(** X16. Opening a file: a dismissed dialog changes nothing; a file that does
    not decode leaves both image slots and shows the error; a file that
    decodes becomes the current image, and the processed image of the
    image before it stays. *)
Theorem load_image_replaces_current_only (self : window) (file_name : list Z)
    (imread : list Z → option buffer) :
  let self' := MainWindow.load_image self file_name imread in
  (file_name = [] → self' = self)
  ∧ win_processed_image self' = win_processed_image self
  ∧ (file_name ≠ [] → imread file_name = None →
       win_image self' = win_image self
       ∧ win_errors self' = win_errors self ++ [ValueError_not_loaded])
  ∧ (file_name ≠ [] → ∀ image, imread file_name = Some image →
       win_image self' = Some image ∧ win_errors self' = win_errors self).
Proof.
  unfold MainWindow.load_image, Inline.load_image.
  destruct file_name as [|c name]; simpl.
  { repeat split; intros; congruence. }
  destruct (imread (c :: name)) as [image|]; simpl;
    repeat split; intros; congruence.
Qed.

(** ** Loading and displaying *)

Lemma cols_map_map {A B} (f : A → B) (rows : list (list A)) :
  match map (map f) rows with [] => 0%nat | row :: _ => length row end
  = match rows with [] => 0%nat | row :: _ => length row end.
Proof. destruct rows as [|row rows]; simpl; [done|]. by rewrite length_map. Qed.

(** X18. What the conversion of [load_image] returns has three channels exactly
    when the decoded array had two dimensions, or three or four channels;
    it always has three dimensions and the rows and columns it was given. *)
Theorem normalize_channels_3 (x : ndarray) :
  (channels (normalize x) = 3%nat
   ↔ ndim x = 2%nat ∨ channels x = 3%nat ∨ channels x = 4%nat)
  ∧ ndim (normalize x) = 3%nat
  ∧ rows_of (normalize x) = rows_of x
  ∧ cols_of (normalize x) = cols_of x.
Proof.
  destruct x as [rows|c rows]; simpl.
  - rewrite length_map, cols_map_map. split; [|done]. split; [by left|done].
  - case_bool_decide as Hc; simpl.
    + rewrite length_map, cols_map_map. subst c.
      split; [|done]. split; [by right; right|done].
    + split; [|done]. split; [by right; left|].
      intros [H|[H|H]]; [discriminate|done|done].
Qed.

Lemma rgb_of_take_3 (p : list Z) : rgb_of (take 3 p) = rgb_of p.
Proof. by destruct p as [|b [|g [|r [|a p]]]]. Qed.

(** X19. Displaying fails exactly when there is no image, when the array
    has a third dimension that is neither 3 nor 4, or when an array of an
    accepted layout has no pixels, which [cv2.cvtColor] refuses; otherwise
    the buffer handed to the display has three channels and the rows and
    columns of the array. *)
Theorem display_image_fails (image : option ndarray) :
  match MainWindow.display_image image with
  | inl e =>
      match image with
      | None => e = ValueError_no_image
      | Some x =>
          (ndim x = 3%nat ∧ channels x ≠ 3%nat ∧ channels x ≠ 4%nat
           ∧ e = ValueError_channels (channels x))
          ∨ ((ndim x = 2%nat ∨ channels x = 3%nat ∨ channels x = 4%nat)
             ∧ (rows_of x = 0%nat ∨ cols_of x = 0%nat)
             ∧ e = cv2_error_no_pixels)
      end
  | inr rgb =>
      ∃ x, image = Some x
        ∧ (ndim x = 2%nat ∨ channels x = 3%nat ∨ channels x = 4%nat)
        ∧ rows_of x ≠ 0%nat ∧ cols_of x ≠ 0%nat
        ∧ channels rgb = 3%nat
        ∧ rows_of rgb = rows_of x ∧ cols_of rgb = cols_of x
  end.
Proof.
  assert (∀ (A : Type) (f : A → list Z) (rows : list (list A)) (x : ndarray),
            rows_of x = length rows →
            cols_of x = match rows with [] => 0%nat | row :: _ => length row end →
            ndim x = 2%nat ∨ channels x = 3%nat ∨ channels x = 4%nat →
            match
              (if bool_decide (rows_of (Arr3 3 (map (map f) rows)) = 0%nat)
                  || bool_decide (cols_of (Arr3 3 (map (map f) rows)) = 0%nat)
               then inl cv2_error_no_pixels
               else inr (Arr3 3 (map (map f) rows)) : display_exn + ndarray)
            with
            | inl e =>
                (ndim x = 3%nat ∧ channels x ≠ 3%nat ∧ channels x ≠ 4%nat
                 ∧ e = ValueError_channels (channels x))
                ∨ ((ndim x = 2%nat ∨ channels x = 3%nat ∨ channels x = 4%nat)
                   ∧ (rows_of x = 0%nat ∨ cols_of x = 0%nat)
                   ∧ e = cv2_error_no_pixels)
            | inr rgb =>
                ∃ x', Some x = Some x'
                  ∧ (ndim x' = 2%nat ∨ channels x' = 3%nat ∨ channels x' = 4%nat)
                  ∧ rows_of x' ≠ 0%nat ∧ cols_of x' ≠ 0%nat
                  ∧ channels rgb = 3%nat
                  ∧ rows_of rgb = rows_of x' ∧ cols_of rgb = cols_of x'
            end) as Hconv.
  { intros A f rows x Hrows Hcols Hlayout. simpl.
    rewrite length_map, cols_map_map, <- Hrows, <- Hcols.
    case_bool_decide as Hr; simpl.
    { right. split; [done|]. split; [by left|done]. }
    case_bool_decide as Hc; simpl.
    { right. split; [done|]. split; [by right|done]. }
    exists x. rewrite length_map, cols_map_map.
    do 5 (split; [done|]). by split. }
  destruct image as [[rows|c rows]|]; unfold MainWindow.display_image;
    [| |done].
  - apply (Hconv Z (λ v, [v; v; v]) rows (Arr2 rows)); [done|done|by left].
  - unfold MainWindow.display_image_rgb.
    destruct (decide (c = 3%nat)) as [->|H3].
    { apply (Hconv (list Z) rgb_of rows (Arr3 3 rows)); [done|done|].
      by right; left. }
    rewrite (bool_decide_eq_false_2 (c = 3%nat)) by done.
    destruct (decide (c = 4%nat)) as [->|H4].
    { apply (Hconv (list Z) rgb_of rows (Arr3 4 rows)); [done|done|].
      by right; right. }
    rewrite (bool_decide_eq_false_2 (c = 4%nat)) by done. by left.
Qed.

(** A canonical buffer is displayed without an error exactly when the
    conversion that opens [display_image] takes the array it is. *)
Lemma display_image_errors_agree (image : buffer) :
  display_image_errors image = []
  ↔ ∃ rgb, MainWindow.display_image (Some (ndarray_of image)) = inr rgb.
Proof.
  unfold MainWindow.display_image, ndarray_of, display_image_errors, height,
    width. simpl. rewrite !length_map, cols_map_map.
  destruct image as [|row image]; simpl.
  { split; [discriminate|]. by intros [rgb [=]]. }
  rewrite length_map.
  destruct row as [|p row]; simpl.
  { split; [discriminate|]. by intros [rgb [=]]. }
  split; [eauto|done].
Qed.

Lemma display_image_rgb_same (x : ndarray) :
  MainWindow.display_image_rgb (Some (normalize x))
  = MainWindow.display_image_rgb (Some x).
Proof.
  destruct x as [rows|c rows]; simpl.
  - rewrite map_map_compose. reflexivity.
  - destruct (decide (c = 4%nat)) as [->|Hc]; simpl.
    + rewrite map_map_compose. do 2 f_equal.
      apply map_map_ext. apply rgb_of_take_3.
    + rewrite (bool_decide_eq_false_2 (c = 4%nat)) by done. simpl.
      by rewrite (bool_decide_eq_false_2 (c = 4%nat)) by done.
Qed.

(** X20. The conversion of the loader changes nothing that is displayed: a
    decoded array and its conversion show the same buffer, or fail to show
    with the same error. *)
Theorem display_image_rgb_normalize (x : ndarray) :
  MainWindow.display_image_rgb (Some (normalize x))
  = MainWindow.display_image_rgb (Some x).
Proof. apply display_image_rgb_same. Qed.


Lemma length_concat_uniform {A} (ls : list (list A)) (n : nat) :
  Forall (λ l, length l = n) ls → length (concat ls) = (length ls * n)%nat.
Proof.
  induction 1 as [|l ls Hl _ IH]; simpl; [done|].
  rewrite length_app, IH, Hl. lia.
Qed.

Lemma rgb_rows_size (f : list Z → list Z) (rows : list (list (list Z)))
    (h w : nat) :
  has_shape rows h w →
  Forall (Forall (λ p, length (f p) = 3%nat)) rows →
  length (concat (map (λ row, concat row) (map (map f) rows)))
  = (h * (3 * w))%nat.
Proof.
  intros [Hh Hw] Hp. rewrite (length_concat_uniform _ (3 * w)).
  - rewrite !length_map. by rewrite Hh.
  - rewrite !Forall_map. apply Forall_forall. intros row Hrow. simpl.
    rewrite Forall_forall in Hw, Hp.
    rewrite (length_concat_uniform _ 3).
    + rewrite length_map, (Hw row Hrow). lia.
    + rewrite Forall_map. exact (Hp row Hrow).
Qed.

(** X22. The buffer handed to [QImage] holds what [QImage] is told it holds:
    for a rectangular array that displays, [h] rows of [bytes_per_line]
    values, and a line is three values for each of the [w] pixels. *)
Theorem display_buffer_size (image rgb : ndarray) (h w : nat) :
  ndarray_ok image h w → (0 < h)%nat →
  MainWindow.display_image_rgb (Some image) = inr rgb →
  rows_of rgb = h
  ∧ MainWindow.bytes_per_line rgb = (3 * w)%nat
  ∧ length (data_of rgb) = (h * MainWindow.bytes_per_line rgb)%nat.
Proof.
  intros Hok Hh Hrgb.
  assert (∀ (f : list Z → list Z) (rows : list (list (list Z))),
            has_shape rows h w →
            Forall (Forall (λ p, length (f p) = 3%nat)) rows →
            rows_of (Arr3 3 (map (map f) rows)) = h
            ∧ MainWindow.bytes_per_line (Arr3 3 (map (map f) rows)) = (3 * w)%nat
            ∧ length (data_of (Arr3 3 (map (map f) rows)))
              = (h * MainWindow.bytes_per_line (Arr3 3 (map (map f) rows)))%nat)
    as Hgen.
  { intros f rows Hs Hp. pose proof Hs as [Hlen Hw].
    assert (MainWindow.bytes_per_line (Arr3 3 (map (map f) rows)) = (3 * w)%nat)
      as Hbpl.
    { unfold MainWindow.bytes_per_line. simpl. rewrite cols_map_map.
      destruct rows as [|row rows]; simpl in *; [lia|].
      apply Forall_cons_1 in Hw as [-> _]. lia. }
    split; [simpl; by rewrite length_map|]. split; [exact Hbpl|].
    rewrite Hbpl. simpl. by apply rgb_rows_size. }
  destruct image as [rows|c rows]; simpl in *.
  - injection Hrgb as <-.
    pose proof (Hgen (λ p, match p with v :: _ => [v; v; v] | [] => [0; 0; 0] end)
                  (map (map (λ v, [v])) rows)) as Hg.
    rewrite map_map_compose in Hg. simpl in Hg. apply Hg.
    + by apply map_map_shape.
    + rewrite Forall_map. apply Forall_forall. intros row _.
      rewrite Forall_map. by apply Forall_forall.
  - destruct Hok as [Hs Hp].
    assert (c = 3%nat ∨ c = 4%nat) as Hc.
    { repeat case_bool_decide; try discriminate; auto. }
    assert (Arr3 3 (map (map rgb_of) rows) = rgb) as <-.
    { destruct Hc as [-> | ->]; simpl in Hrgb; by injection Hrgb. }
    apply Hgen; [done|].
    eapply Forall_impl; [exact Hp|]. simpl. intros row Hrow.
    eapply Forall_impl; [exact Hrow|]. simpl. intros p Hlen.
    destruct p as [|b [|g [|r p]]]; simpl in *; [lia..|done].
Qed.

Lemma display_buffer_size_witness :
  rows_of (Arr3 3 [[[3; 2; 1]; [6; 5; 4]]]) = 1%nat
  ∧ MainWindow.bytes_per_line (Arr3 3 [[[3; 2; 1]; [6; 5; 4]]]) = (3 * 2)%nat
  ∧ length (data_of (Arr3 3 [[[3; 2; 1]; [6; 5; 4]]]))
    = (1 * MainWindow.bytes_per_line (Arr3 3 [[[3; 2; 1]; [6; 5; 4]]]%Z))%nat.
Proof.
  apply (display_buffer_size (Arr3 4 [[[1; 2; 3; 255]; [4; 5; 6; 0]]])
           (Arr3 3 [[[3; 2; 1]; [6; 5; 4]]]) 1 2).
  - simpl. split; [by apply has_shapeb_spec; vm_compute|].
    repeat constructor.
  - lia.
  - reflexivity.
Defined.

(** ** The camera, again *)

Lemma capture_from_camera_state (dev : camera) :
  held dev = false →
  let dev' := (capture_from_camera dev).1 in
  held dev' = false
  ∧ will_open dev' = will_open dev
  ∧ (∀ ev, ev = EvRead ∨ ev = EvRelease →
       count_calls ev dev'
       = (count_calls ev dev + (if will_open dev then 1 else 0))%nat)
  ∧ count_calls (EvVideoCapture 0) dev'
    = (count_calls (EvVideoCapture 0) dev + 1)%nat.
Proof.
  intros Hheld. simpl. rewrite (capture_from_camera_run dev Hheld).
  destruct (will_open dev) eqn:Ho; [destruct (next_frame dev) as [f|]|];
    simpl; rewrite ?count_calls_app; simpl;
    (split; [done|]; split; [done|]; split; [|done]);
    intros ev [-> | ->]; by rewrite count_calls_app.
Qed.

(** X23. However often a photo is taken, the device is not held afterwards, it
    was opened once per photo, and it was released as often as it was
    read: once per photo when it opens, never when it does not. *)
Theorem capture_repeatedly_releases (n : nat) (dev : camera) :
  held dev = false →
  let dev' := capture_repeatedly n dev in
  let reads := (if will_open dev then n else 0)%nat in
  held dev' = false
  ∧ count_calls (EvVideoCapture 0) dev'
    = (count_calls (EvVideoCapture 0) dev + n)%nat
  ∧ count_calls EvRead dev' = (count_calls EvRead dev + reads)%nat
  ∧ count_calls EvRelease dev' = (count_calls EvRelease dev + reads)%nat.
Proof.
  revert dev. induction n as [|n IH]; intros dev Hheld; simpl.
  { repeat split; try done; destruct (will_open dev); lia. }
  destruct (capture_from_camera_state dev Hheld) as (Hh & Ho & Hc & Hv).
  destruct (IH _ Hh) as (IH1 & IH2 & IH3 & IH4).
  split; [exact IH1|]. rewrite IH2, IH3, IH4, Hv, Ho.
  rewrite (Hc EvRead) by (by left). rewrite (Hc EvRelease) by (by right).
  destruct (will_open dev); repeat split; lia.
Qed.

Lemma capture_repeatedly_releases_witness :
  let dev := Camera true None false [] in
  let dev' := capture_repeatedly 3 dev in
  held dev' = false
  ∧ count_calls (EvVideoCapture 0) dev'
    = (count_calls (EvVideoCapture 0) dev + 3)%nat
  ∧ count_calls EvRead dev' = (count_calls EvRead dev + 3)%nat
  ∧ count_calls EvRelease dev' = (count_calls EvRelease dev + 3)%nat.
Proof.
  apply (capture_repeatedly_releases 3 (Camera true None false [])).
  reflexivity.
Defined.

(** X24. The capture function the shell declares for itself drives the device
    as the loader's does and releases it on every path; where the
    loader's reports an exception and returns [None], it raises that
    exception. *)
Theorem inline_capture_from_camera_agrees (dev : camera) :
  held dev = false →
  let '(dev1, r1) := Inline.capture_from_camera dev in
  let '(dev2, r2) := capture_from_camera dev in
  held dev1 = false
  ∧ match r1 with
    | Ok frame => dev2 = dev1 ∧ r2 = Ok frame ∧ is_Some frame
    | Raise e =>
        r2 = Ok None
        ∧ calls dev2 = calls dev1 ++ [EvCritical e]
        ∧ (e = Exception_camera_unavailable ∧ will_open dev = false
           ∨ e = Exception_no_frame ∧ will_open dev = true)
    end.
Proof.
  destruct dev as [o f h cs]. simpl. intros ->.
  unfold capture_from_camera, Inline.capture_from_camera, cam_try, mbind,
    cam_bind, VideoCapture, isOpened, read, release, critical, cam_raise,
    mret, cam_ret, log.
  destruct o; simpl; [destruct f as [frame|]; simpl|]; repeat split; eauto.
Qed.

Lemma inline_capture_from_camera_agrees_witness :
  let dev := Camera true None false [] in
  let '(dev1, r1) := Inline.capture_from_camera dev in
  let '(dev2, r2) := capture_from_camera dev in
  held dev1 = false
  ∧ match r1 with
    | Ok frame => dev2 = dev1 ∧ r2 = Ok frame ∧ is_Some frame
    | Raise e =>
        r2 = Ok None
        ∧ calls dev2 = calls dev1 ++ [EvCritical e]
        ∧ (e = Exception_camera_unavailable ∧ will_open dev = false
           ∨ e = Exception_no_frame ∧ will_open dev = true)
    end.
Proof.
  apply (inline_capture_from_camera_agrees (Camera true None false [])).
  reflexivity.
Defined.

(** ** Views stay inside their storage *)

(** X25. Whatever integers a crop is asked with, in range or not, negative or
    not, the view it yields lies inside the storage it reads. *)
Theorem slice_view_inside (σ : gmap positive buffer) (a : array)
    (x1 y1 x2 y2 : Z) :
  array_ok σ a → array_ok σ (ByRef.crop_image σ a x1 y1 x2 y2).2.
Proof.
  intros (buf & h & w & Hbuf & Hs & Hr & Hc). exists buf, h, w. simpl.
  pose proof (slice_bound_range (Z.of_nat (nrows a)) y1 ltac:(lia)).
  pose proof (slice_bound_range (Z.of_nat (nrows a)) y2 ltac:(lia)).
  pose proof (slice_bound_range (Z.of_nat (ncols a)) x1 ltac:(lia)).
  pose proof (slice_bound_range (Z.of_nat (ncols a)) x2 ltac:(lia)).
  split; [exact Hbuf|]. split; [exact Hs|]. split; lia.
Qed.

Lemma gradient_array_ok :
  array_ok ({[ 1%positive := gradient 20 20 ]} : gmap positive buffer)
           (Array 1 0 0 20 20).
Proof.
  exists (gradient 20 20), 20%nat, 20%nat.
  split; [reflexivity|]. split; [by apply has_shapeb_spec; vm_compute|].
  simpl. lia.
Defined.

Lemma slice_view_inside_witness :
  array_ok ({[ 1%positive := gradient 20 20 ]} : gmap positive buffer)
    (ByRef.crop_image {[ 1%positive := gradient 20 20 ]}
       (Array 1 0 0 20 20) (-3) 5 40 (-2)).2.
Proof. apply slice_view_inside. exact gradient_array_ok. Defined.

Lemma byref_draw_circle_frame (circle_stroke : Z → Z → Z → Z → Z → Z → bool)
    (σ : gmap positive buffer) (a b : array) (x y radius : Z) :
  base b ∈ dom σ →
  let '(σ', r) := ByRef.draw_circle circle_stroke σ a x y radius in
  deref σ' b = deref σ b
  ∧ ∀ out, r = Ok out →
      base out ≠ base b
      ∧ ∀ i j p, deref (setitem σ' out i j p) b = deref σ b.
Proof.
  intros Hb. unfold ByRef.draw_circle, alloc. simpl.
  set (l1 := fresh (dom σ)).
  assert (base b ≠ l1) as Hne.
  { intros Heq. apply (is_fresh (dom σ)). fold l1. by rewrite <- Heq. }
  destruct (radius <? 0); simpl.
  { split; [by apply deref_insert_ne|]. intros out [=]. }
  rewrite alter_insert_eq. split; [by apply deref_insert_ne|].
  intros out [= <-]. simpl. split; [congruence|].
  intros i j p. rewrite deref_setitem_ne by (simpl; congruence).
  by apply deref_insert_ne.
Qed.

(** X26. A circle drawn on a crop does not reach the image the crop was taken
    from, although the crop is a view of that image: the image reads as
    before, and the drawing has storage of its own. *)
Theorem draw_circle_on_crop_keeps_image
    (circle_stroke : Z → Z → Z → Z → Z → Z → bool)
    (σ : gmap positive buffer) (image : array) (x1 y1 x2 y2 x y radius : Z) :
  array_ok σ image →
  let '(σ1, view) := ByRef.crop_image σ image x1 y1 x2 y2 in
  let '(σ2, r) := ByRef.draw_circle circle_stroke σ1 view x y radius in
  base view = base image
  ∧ deref σ2 image = deref σ image
  ∧ deref σ2 view = deref σ view
  ∧ ∀ out, r = Ok out →
      base out ≠ base image
      ∧ ∀ i j p, deref (setitem σ2 out i j p) image = deref σ image.
Proof.
  intros Hok. pose proof (array_ok_allocated σ image Hok) as Hdom. simpl.
  pose proof (byref_draw_circle_frame circle_stroke σ
                (slice_view image x1 y1 x2 y2) image x y radius Hdom) as Himg.
  pose proof (byref_draw_circle_frame circle_stroke σ
                (slice_view image x1 y1 x2 y2) (slice_view image x1 y1 x2 y2)
                x y radius Hdom) as Hview.
  destruct (ByRef.draw_circle circle_stroke σ (slice_view image x1 y1 x2 y2)
              x y radius) as [σ2 r].
  destruct Himg as [Himg Hout]. destruct Hview as [Hview _].
  repeat split; try done; by apply Hout.
Qed.

Lemma draw_circle_on_crop_keeps_image_witness :
  let σ : gmap positive buffer := {[ 1%positive := gradient 20 20 ]} in
  let image := Array 1 0 0 20 20 in
  let '(σ1, view) := ByRef.crop_image σ image 5 5 15 15 in
  let '(σ2, r) := ByRef.draw_circle ring_stroke σ1 view 5 5 3 in
  base view = base image
  ∧ deref σ2 image = deref σ image
  ∧ deref σ2 view = deref σ view
  ∧ ∀ out, r = Ok out →
      base out ≠ base image
      ∧ ∀ i j p, deref (setitem σ2 out i j p) image = deref σ image.
Proof.
  apply (draw_circle_on_crop_keeps_image ring_stroke
           {[ 1%positive := gradient 20 20 ]} (Array 1 0 0 20 20)
           5 5 15 15 5 5 3).
  exact gradient_array_ok.
Defined.
